(** * CSVParser.h: a typed, streaming reader of separator-delimited rows

    A shallow embedding of [CSVReader<Fields...>] and its nested [iterator]
    (src/CSVParser.h), together with the part of the C++ stream library the
    class relies on: the state bits of [std::istream], [std::getline] and the
    formatted extractors [operator>>] for [int] and [std::string]. *)

From Stdlib Require Import ZArith Ascii String.
From stdpp Require Import base option list gmap strings pretty.

Local Open Scope string_scope.
Local Open Scope Z_scope.

(** ** Characters and strings *)

Module Chars.

Definition newline : ascii := ascii_of_nat 10.
Definition comma : ascii := ","%char.

(** [std::isspace] in the "C" locale: space, \t, \n, \v, \f, \r. *)
Definition isspace (c : ascii) : bool :=
  let n := nat_of_ascii c in
  (Nat.eqb n 32 || (Nat.leb 9 n && Nat.leb n 13))%bool.

(** The decimal value of a digit character, if it is one. *)
Definition digit (c : ascii) : option Z :=
  let n := nat_of_ascii c in
  if (Nat.leb 48 n && Nat.leb n 57)%bool then Some (Z.of_nat (n - 48)) else None.

Fixpoint skipws (s : string) : string :=
  match s with
  | String c s' => if isspace c then skipws s' else s
  | EmptyString => EmptyString
  end.

End Chars.

(** ** [std::istream]

    The unread characters of the stream buffer and the two state bits the
    program can observe ([badbit] is never raised by an in-memory or
    sequential read of the operations used here). *)

Record istream : Type := mk_istream {
  rdbuf : string;
  eofbit : bool;
  failbit : bool
}.

Module Stream.

(** [std::stringstream(s)] and any freshly opened stream over [s]. *)
Definition open (s : string) : istream :=
  {| rdbuf := s; eofbit := false; failbit := false |}.

Definition eof (inp : istream) : bool := eofbit inp.
Definition good (inp : istream) : bool := negb (eofbit inp) && negb (failbit inp).

Definition set_fail (inp : istream) : istream :=
  {| rdbuf := rdbuf inp; eofbit := eofbit inp; failbit := true |}.

(** Characters up to the first [delim]; the remainder after the delimiter
    when there is one, [None] when the end of input was reached first. *)
Fixpoint until (delim : ascii) (s : string) : string * option string :=
  match s with
  | EmptyString => (EmptyString, None)
  | String c s' =>
      if Ascii.eqb c delim then (EmptyString, Some s')
      else let '(l, r) := until delim s' in (String c l, r)
  end.

(** [std::getline(is, str, delim)].  The sentry (constructed with
    [noskipws]) fails on a stream that is not [good()]: [failbit] is set and
    [str] is left alone.  Otherwise [str] is erased and characters are
    extracted until the delimiter (extracted, not stored) or the end of
    input (sets [eofbit]); extracting nothing at all sets [failbit]. *)
Definition getline (inp : istream) (str : string) (delim : ascii)
  : istream * string :=
  if good inp then
    match until delim (rdbuf inp) with
    | (l, Some rest) =>
        ({| rdbuf := rest; eofbit := false; failbit := false |}, l)
    | (l, None) =>
        ({| rdbuf := EmptyString; eofbit := true;
            failbit := match l with EmptyString => true | _ => false end |}, l)
    end
  else (set_fail inp, str).

(** The sentry of a formatted input function ([skipws] is on by default):
    white space is skipped; a stream that is not [good()], or that holds
    nothing but white space, makes it fail (the flag returned is [false])
    with [failbit] set. *)
Definition sentry (inp : istream) : istream * bool :=
  if good inp then
    match Chars.skipws (rdbuf inp) with
    | EmptyString =>
        ({| rdbuf := EmptyString; eofbit := true; failbit := true |}, false)
    | rest => ({| rdbuf := rest; eofbit := false; failbit := false |}, true)
    end
  else (set_fail inp, false).

End Stream.

(** ** Formatted extraction, [is >> t] *)

(** An [int] object.  [int t;] leaves [t] with an indeterminate value. *)
Inductive cpp_int : Type :=
| indeterminate
| int_val (z : Z).

Module Extract.

Definition INT_MAX : Z := 2147483647.
Definition INT_MIN : Z := -2147483648.

(** The longest run of decimal digits at the head of [s], accumulated on
    [acc]; [seen] tells whether any digit was read. *)
Fixpoint digits (s : string) (acc : Z) (seen : bool) : Z * bool * string :=
  match s with
  | EmptyString => (acc, seen, EmptyString)
  | String c s' =>
      match Chars.digit c with
      | Some d => digits s' (10 * acc + d) true
      | None => (acc, seen, s)
      end
  end.

Definition is_sign (c : ascii) : bool :=
  (Ascii.eqb c "+"%char || Ascii.eqb c "-"%char)%bool.

(** [num_get::get] for [int] with the default [dec] base: an optional sign
    and decimal digits.  No digit: the value is 0 and [failbit] is set.
    A value outside of [int]: the nearest bound is stored and [failbit] is
    set.  Reading up to the end of input sets [eofbit]. *)
Definition num_get_int (inp : istream) : istream * cpp_int :=
  let '(neg, body) :=
    match rdbuf inp with
    | String c s' => if is_sign c then (Ascii.eqb c "-"%char, s') else (false, rdbuf inp)
    | EmptyString => (false, EmptyString)
    end in
  let '(n, seen, rest) := digits body 0 false in
  let v := if neg then - n else n in
  let at_end := match rest with EmptyString => true | _ => false end in
  if negb seen then
    ({| rdbuf := rest; eofbit := at_end; failbit := true |}, int_val 0)
  else if INT_MAX <? v then
    ({| rdbuf := rest; eofbit := at_end; failbit := true |}, int_val INT_MAX)
  else if v <? INT_MIN then
    ({| rdbuf := rest; eofbit := at_end; failbit := true |}, int_val INT_MIN)
  else
    ({| rdbuf := rest; eofbit := at_end; failbit := false |}, int_val v).

(** [std::istream::operator>>(int&)]: nothing is stored when the sentry
    fails. *)
Definition extract_int (inp : istream) (t : cpp_int) : istream * cpp_int :=
  match Stream.sentry inp with
  | (inp', true) => num_get_int inp'
  | (inp', false) => (inp', t)
  end.

(** Characters up to the next white space. *)
Fixpoint word (s : string) : string * string :=
  match s with
  | EmptyString => (EmptyString, EmptyString)
  | String c s' =>
      if Chars.isspace c then (EmptyString, s)
      else let '(w, r) := word s' in (String c w, r)
  end.

(** [operator>>(std::istream&, std::string&)]: after the sentry, the string
    is erased and receives the characters up to the next white space or the
    end of input. *)
Definition extract_string (inp : istream) (t : string) : istream * string :=
  match Stream.sentry inp with
  | (inp', true) =>
      let '(w, rest) := word (rdbuf inp') in
      ({| rdbuf := rest;
          eofbit := match rest with EmptyString => true | _ => false end;
          failbit := match w with EmptyString => true | _ => false end |}, w)
  | (inp', false) => (inp', t)
  end.

End Extract.

(** ** The concept [Parseable]

    A type [T] is Parseable iff [operator>>] is implemented for it.  Besides
    the extractor, the reader uses two ways of creating a [T]:
    default-initialization ([T t;] in [parse]) and value-initialization (what
    the default constructor of [std::tuple] does for each element). *)

Record Parseable : Type := mk_Parseable {
  carrier : Type;
  default_init : carrier;
  value_init : carrier;
  extract : istream -> carrier -> istream * carrier
}.

Definition Int : Parseable :=
  {| carrier := cpp_int;
     default_init := indeterminate;
     value_init := int_val 0;
     extract := Extract.extract_int |}.

Definition Str : Parseable :=
  {| carrier := string;
     default_init := EmptyString;
     value_init := EmptyString;
     extract := Extract.extract_string |}.

(** [std::tuple<Fields...>], as nested pairs closed by [tt]. *)
Fixpoint tuple (Fields : list Parseable) : Type :=
  match Fields with
  | [] => unit
  | T :: Ts => (carrier T * tuple Ts)%type
  end.

(** [std::tuple<Fields...>()]: every element value-initialized. *)
Fixpoint tuple_value_init (Fields : list Parseable) : tuple Fields :=
  match Fields with
  | [] => tt
  | T :: Ts => (value_init T, tuple_value_init Ts)
  end.

(** ** Objects, references and control flow *)

Definition addr : Type := positive.

(** The data members of a [CSVReader]: a reference to the stream and the
    separator. *)
Record CSVReader : Type := mk_CSVReader {
  stream_ : addr;
  separator_ : ascii
}.

(** The objects that are shared by reference: readers (pointed to by
    iterators) and streams (referred to by readers). *)
Record memory : Type := mk_memory {
  readers : gmap addr CSVReader;
  streams : gmap addr istream
}.

(** What can be thrown: [std::out_of_range], which the reader and the
    iterator throw themselves; [std::ios_base::failure], which a stream
    throws when a state bit of its exception mask is raised; and whatever
    else the [operator>>] of a field type throws. *)
Inductive exception : Type :=
| out_of_range (what : string)
| ios_failure
| other (what : string).

(** How a call ends: it returns, it throws, or it has no defined behaviour
    (a pointer or reference to an object that does not exist was used). *)
Inductive outcome (S A : Type) : Type :=
| Returns (a : A) (s : S)
| Throws (e : exception) (s : S)
| Undefined.

Arguments Returns {S A} a s.
Arguments Throws {S A} e s.
Arguments Undefined {S A}.

Definition M (S A : Type) : Type := S -> outcome S A.

Module Cpp.

Definition ret {S A} (a : A) : M S A := fun s => Returns a s.

Definition bind {S A B} (m : M S A) (k : A -> M S B) : M S B :=
  fun s =>
    match m s with
    | Returns a s' => k a s'
    | Throws e s' => Throws e s'
    | Undefined => Undefined
    end.

Definition throw {S A} (e : exception) : M S A := fun s => Throws e s.

(** A call on the shared objects made from a method of an object [O] held
    by value: the object is untouched by the call. *)
Definition call {O S A} (m : M S A) : M (O * S) A :=
  fun '(o, s) =>
    match m s with
    | Returns a s' => Returns a (o, s')
    | Throws e s' => Throws e (o, s')
    | Undefined => Undefined
    end.

(** [m] run [n] times in a row, with the values it returned. *)
Fixpoint times {S A} (n : nat) (m : M S A) : M S (list A) :=
  match n with
  | O => ret []
  | Datatypes.S n' => bind m (fun a => bind (times n' m) (fun l => ret (a :: l)))
  end.

End Cpp.

Declare Scope cpp_scope.
Delimit Scope cpp_scope with cpp.
Notation "x <- m ;; k" := (Cpp.bind m (fun x => k))
  (at level 100, m at next level, right associativity) : cpp_scope.
Notation "m ;; k" := (Cpp.bind m (fun _ => k))
  (at level 100, right associativity) : cpp_scope.
Local Open Scope cpp_scope.

Module Memory.

(** [*p] for a pointer or reference to a reader. *)
Definition reader_at (p : addr) : M memory CSVReader :=
  fun m => match readers m !! p with
           | Some r => Returns r m
           | None => Undefined
           end.

Definition stream_at (a : addr) : M memory istream :=
  fun m => match streams m !! a with
           | Some s => Returns s m
           | None => Undefined
           end.

Definition set_stream (a : addr) (s : istream) : M memory unit :=
  fun m => Returns tt {| readers := readers m; streams := <[a := s]> (streams m) |}.

End Memory.

(** ** [template<Parseable... Fields> class CSVReader] *)

(** [CSVReader(std::istream &is, const char sep = ',')]. *)
Definition CSVReader_new (is_ : addr) (sep : option ascii) : CSVReader :=
  {| stream_ := is_; separator_ := default Chars.comma sep |}.

(** The iterator: the cached row and a pointer to the reader ([None] is
    [nullptr]). *)
Record iterator (Fields : list Parseable) : Type := mk_iterator {
  current_ : tuple Fields;
  reader : option addr
}.

Arguments mk_iterator {Fields} current_ reader.
Arguments current_ {Fields} i.
Arguments reader {Fields} i.

(** [T parse<T>(std::stringstream &ss) const]. *)
Definition parse (T : Parseable) (this : CSVReader) (ss : istream)
  : carrier T * istream :=
  let t := default_init T in
  let tmp := EmptyString in
  let '(ss, tmp) := Stream.getline ss tmp (separator_ this) in
  let '(_, t) := extract T (Stream.open tmp) t in
  (t, ss).

(** Evaluation of the argument at position [i] of the pack expansion
    [parse<Fields>(ss)...]: the call [parse<T_i>(ss)], whose value becomes
    element [i].  A position outside of the pack evaluates nothing. *)
Fixpoint parse_arg (Fields : list Parseable) (this : CSVReader) (i : nat)
  : tuple Fields -> istream -> tuple Fields * istream :=
  match Fields with
  | [] => fun args ss => (args, ss)
  | T :: Ts => fun '(x, xs) ss =>
      match i with
      | O => let '(x', ss') := parse T this ss in ((x', xs), ss')
      | S j => let '(xs', ss') := parse_arg Ts this j xs ss in ((x, xs'), ss')
      end
  end.

(** Elements whose argument has not been evaluated yet. *)
Fixpoint pending (Fields : list Parseable) : tuple Fields :=
  match Fields with
  | [] => tt
  | T :: Ts => (default_init T, pending Ts)
  end.

(** The positions [0 .. n-1] in textual order, and in reverse. *)
Definition left_to_right (n : nat) : list nat := seq 0 n.
Definition right_to_left (n : nat) : list nat := rev (seq 0 n).

Section CSVReader.

Variable Fields : list Parseable.

(** [std::tuple<Fields...>(parse<Fields>(ss)...)] is a constructor call
    with a parenthesized argument list: the language leaves the order in
    which the arguments are evaluated to the implementation, and every
    argument reads from the same [ss].  [arg_order] lists the argument
    positions in the order the implementation evaluates them, a
    permutation of [0 .. N-1]: [left_to_right N] or [right_to_left N] for
    the usual compilers. *)
Variable arg_order : list nat.

Definition value_type : Type := tuple Fields.

Definition parse_pack (this : CSVReader) (ss : istream) : value_type * istream :=
  fold_left (fun '(args, ss) i => parse_arg Fields this i args ss)
            arg_order (pending Fields, ss).

(** [bool has_next_row() const]. *)
Definition has_next_row (p : addr) : M memory bool :=
  this <- Memory.reader_at p ;;
  s <- Memory.stream_at (stream_ this) ;;
  Cpp.ret (negb (Stream.eof s)).

(** [value_type next_row()]. *)
Definition next_row (p : addr) : M memory value_type :=
  more <- has_next_row p ;;
  if negb more then Cpp.throw (out_of_range "EOF")
  else
    this <- Memory.reader_at p ;;
    s <- Memory.stream_at (stream_ this) ;;
    let '(s, tmp) := Stream.getline s EmptyString Chars.newline in
    Memory.set_stream (stream_ this) s ;;
    let ss := Stream.open tmp in
    Cpp.ret (fst (parse_pack this ss)).

(** *** [class iterator]: methods act on the iterator itself and on the
    shared objects. *)

Definition this_ : M (iterator Fields * memory) (iterator Fields) :=
  fun '(it, m) => Returns it (it, m).

Definition set_reader (r : option addr) : M (iterator Fields * memory) unit :=
  fun '(it, m) => Returns tt ({| current_ := current_ it; reader := r |}, m).

Definition set_current (row : value_type) : M (iterator Fields * memory) unit :=
  fun '(it, m) => Returns tt ({| current_ := row; reader := reader it |}, m).

(** [iterator operator++()]. *)
Definition operator_inc : M (iterator Fields * memory) (iterator Fields) :=
  this <- this_ ;;
  match reader this with
  | None => Cpp.throw (out_of_range "EOF")
  | Some r =>
      more <- Cpp.call (has_next_row r) ;;
      (if negb more then set_reader None
       else row <- Cpp.call (next_row r) ;; set_current row) ;;
      this_
  end.

(** [iterator()]: the tuple is default-constructed, the reader is null. *)
Definition iterator_default : iterator Fields :=
  {| current_ := tuple_value_init Fields; reader := None |}.

(** [explicit iterator(CSVReader<Fields...> &reader)]. *)
Definition iterator_of (r : addr) : M memory (iterator Fields) :=
  fun m =>
    match operator_inc ({| current_ := tuple_value_init Fields; reader := Some r |}, m) with
    | Returns _ (this, m') => Returns this m'
    | Throws e (_, m') => Throws e m'
    | Undefined => Undefined
    end.

(** [bool operator!=(const iterator &other) const]. *)
Definition operator_ne (this other : iterator Fields) : bool :=
  negb (bool_decide (reader this = reader other)).

(** [value_type operator*() const]. *)
Definition operator_star : M (iterator Fields * memory) value_type :=
  this <- this_ ;; Cpp.ret (current_ this).

(** [iterator begin()] and [iterator end()]. *)
Definition begin_ (p : addr) : M memory (iterator Fields) :=
  _ <- Memory.reader_at p ;; iterator_of p.

Definition end_ : iterator Fields := iterator_default.

(** The range-based loop [for (auto row : reader) rows.push_back(row);]
    that is, [for (auto it = reader.begin(); it != reader.end(); ++it)]
    with [row = *it].  [None] when [fuel] iterations were not enough. *)
Fixpoint loop (fuel : nat) (rows : list value_type)
  : M (iterator Fields * memory) (option (list value_type)) :=
  match fuel with
  | O => Cpp.ret None
  | S fuel' =>
      it <- this_ ;;
      if operator_ne it end_ then
        row <- operator_star ;;
        _ <- operator_inc ;;
        loop fuel' (rows ++ [row])
      else Cpp.ret (Some rows)
  end.

Definition range_for (fuel : nat) (p : addr) : M memory (option (list value_type)) :=
  fun m =>
    match begin_ p m with
    | Returns it m' =>
        match loop fuel [] (it, m') with
        | Returns rows (_, m'') => Returns rows m''
        | Throws e (_, m'') => Throws e m''
        | Undefined => Undefined
        end
    | Throws e m' => Throws e m'
    | Undefined => Undefined
    end.

End CSVReader.

Arguments operator_ne {Fields} this other.
Arguments iterator_default {Fields}.
Arguments end_ {Fields}.

(** ** Streams and extractors that throw

    The definitions above are those of the class on a stream whose
    exception mask is empty (the default) and for field types whose
    [operator>>] returns.  Here are the same methods with both taken into
    account. *)

(** An exception mask, [stream.exceptions(mask)]: the state bits whose
    raising makes [setstate] throw [std::ios_base::failure]. *)
Record iostate : Type := mk_iostate {
  mask_eof : bool;
  mask_fail : bool
}.

Definition goodbit : iostate := {| mask_eof := false; mask_fail := false |}.

(** [(rdstate() & exceptions()) != 0], the test [setstate] ends with; a
    read that raised no bit has left the stream good, and the test fails. *)
Definition fires (mask : iostate) (s : istream) : bool :=
  ((mask_eof mask && eofbit s) || (mask_fail mask && failbit s))%bool.

(** A Parseable type with what its [operator>>] throws: [raised inp t] is
    the exception [inp >> t] ends with, if it does not return. *)
Record Extractor : Type := mk_Extractor {
  type_of : Parseable;
  raised : istream -> carrier (type_of) -> option exception
}.

(** A type whose [operator>>] always returns, as those of [int] and
    [std::string] on a stream without exception mask. *)
Definition returning (T : Parseable) : Extractor :=
  {| type_of := T; raised := fun _ _ => None |}.

Definition never_throws (T : Extractor) : Prop :=
  forall inp t, raised T inp t = None.

Module Throwing.

(** [T parse<T>(std::stringstream &ss) const]: [ss] and the temporary
    stream are fresh string streams, their masks are empty. *)
Definition parse (T : Extractor) (this : CSVReader) (ss : istream)
  : carrier (type_of T) * istream + exception :=
  let t := default_init (type_of T) in
  let tmp := EmptyString in
  let '(ss, tmp) := Stream.getline ss tmp (separator_ this) in
  match raised T (Stream.open tmp) t with
  | Some e => inr e
  | None =>
      let '(_, t) := extract (type_of T) (Stream.open tmp) t in
      inl (t, ss)
  end.

Fixpoint parse_arg (Fields : list Extractor) (this : CSVReader) (i : nat)
  : tuple (map type_of Fields) -> istream
    -> tuple (map type_of Fields) * istream + exception :=
  match Fields with
  | [] => fun args ss => inl (args, ss)
  | T :: Ts => fun '(x, xs) ss =>
      match i with
      | O =>
          match parse T this ss with
          | inl (x', ss') => inl ((x', xs), ss')
          | inr e => inr e
          end
      | S j =>
          match parse_arg Ts this j xs ss with
          | inl (xs', ss') => inl ((x, xs'), ss')
          | inr e => inr e
          end
      end
  end.

Section CSVReader.

(** The exception mask of the stream at each address; the reader never
    changes it. *)
Variable exceptions : addr -> iostate.

Variable Fields : list Extractor.
Variable arg_order : list nat.

(** An argument that throws ends the evaluation of the others. *)
Definition parse_pack (this : CSVReader) (ss : istream)
  : tuple (map type_of Fields) * istream + exception :=
  fold_left (fun acc i =>
               match acc with
               | inl (args, ss) => parse_arg Fields this i args ss
               | inr e => inr e
               end)
            arg_order (inl (pending (map type_of Fields), ss)).

(** [value_type next_row()]: [std::getline] on [stream_] throws when it
    raises a bit of the mask, after the bit was set. *)
Definition next_row (p : addr) : M memory (tuple (map type_of Fields)) :=
  more <- has_next_row p ;;
  if negb more then Cpp.throw (out_of_range "EOF")
  else
    this <- Memory.reader_at p ;;
    s <- Memory.stream_at (stream_ this) ;;
    let '(s, tmp) := Stream.getline s EmptyString Chars.newline in
    Memory.set_stream (stream_ this) s ;;
    if fires (exceptions (stream_ this)) s then Cpp.throw ios_failure
    else
      let ss := Stream.open tmp in
      match parse_pack this ss with
      | inl (row, _) => Cpp.ret row
      | inr e => Cpp.throw e
      end.

(** [iterator operator++()]. *)
Definition operator_inc
  : M (iterator (map type_of Fields) * memory) (iterator (map type_of Fields)) :=
  this <- this_ (map type_of Fields) ;;
  match reader this with
  | None => Cpp.throw (out_of_range "EOF")
  | Some r =>
      more <- Cpp.call (has_next_row r) ;;
      (if negb more then set_reader (map type_of Fields) None
       else row <- Cpp.call (next_row r) ;; set_current (map type_of Fields) row) ;;
      this_ (map type_of Fields)
  end.

End CSVReader.

End Throwing.

(** ** Vocabulary of the statements *)

(** The memory after the stream of reader [r] has been replaced. *)
Definition with_stream (m : memory) (r : CSVReader) (s : istream) : memory :=
  {| readers := readers m; streams := <[stream_ r := s]> (streams m) |}.

(** Does [c] occur in [s]? *)
Fixpoint occurs (c : ascii) (s : string) : bool :=
  match s with
  | EmptyString => false
  | String c' s' => (Ascii.eqb c' c || occurs c s')%bool
  end.

(** The number of occurrences of [c] in [s]. *)
Fixpoint occurrences (c : ascii) (s : string) : nat :=
  match s with
  | EmptyString => O
  | String c' s' => if Ascii.eqb c' c then S (occurrences c s') else occurrences c s'
  end.

(** The substrings of [s] that [sep] delimits: one more than there are
    occurrences of [sep]. *)
Fixpoint split (sep : ascii) (s : string) : list string :=
  match s with
  | EmptyString => [EmptyString]
  | String c s' =>
      if Ascii.eqb c sep then EmptyString :: split sep s'
      else match split sep s' with
           | seg :: segs => String c seg :: segs
           | [] => [String c EmptyString]
           end
  end.

(** The first [n] of the segments, empty strings standing in for the
    segments that are missing. *)
Fixpoint take_padded (n : nat) (segs : list string) : list string :=
  match n with
  | O => []
  | S n' => hd EmptyString segs :: take_padded n' (tl segs)
  end.

(** Segments written one after the other with [sep] in between. *)
Fixpoint join (sep : ascii) (segs : list string) : string :=
  match segs with
  | [] => EmptyString
  | [seg] => seg
  | seg :: segs' => seg +:+ String sep (join sep segs')
  end.

(** Lines written one after the other, each closed by a line terminator. *)
Fixpoint unlines (lines : list string) : string :=
  match lines with
  | [] => EmptyString
  | l :: ls => l +:+ String Chars.newline (unlines ls)
  end.

(** What [parse<T>] makes of the substring [tmp]:
    [T t; std::stringstream(tmp) >> t;]. *)
Definition convert (T : Parseable) (tmp : string) : carrier T :=
  snd (extract T (Stream.open tmp) (default_init T)).

(** Element [i] of the tuple replaced by the conversion of [tmp]. *)
Fixpoint set_arg (Fields : list Parseable) (i : nat) (tmp : string)
  : tuple Fields -> tuple Fields :=
  match Fields with
  | [] => fun args => args
  | T :: Ts => fun '(x, xs) =>
      match i with
      | O => (convert T tmp, xs)
      | S j => (x, set_arg Ts j tmp xs)
      end
  end.

(** The row in which the position evaluated k-th received the k-th
    segment. *)
Definition row_of_segments (Fields : list Parseable) (arg_order : list nat)
    (segs : list string) : tuple Fields :=
  fold_left (fun args '(i, seg) => set_arg Fields i seg args)
            (zip arg_order segs) (pending Fields).

(** The row whose i-th element is the conversion of the i-th segment to the
    i-th declared type. *)
Fixpoint convert_all (Fields : list Parseable) (segs : list string) : tuple Fields :=
  match Fields with
  | [] => tt
  | T :: Ts => (convert T (hd EmptyString segs), convert_all Ts (tl segs))
  end.

(** [n] calls of [std::getline(ss, tmp, sep)] in a row, each on a fresh
    [tmp]: the strings read and the stream that is left. *)
Fixpoint getlines (n : nat) (ss : istream) (sep : ascii) : list string * istream :=
  match n with
  | O => ([], ss)
  | S n' =>
      let '(ss', tmp) := Stream.getline ss EmptyString sep in
      let '(tmps, ss'') := getlines n' ss' sep in
      (tmp :: tmps, ss'')
  end.

(** The row the reader makes of one line of text. *)
Definition row_of_line (Fields : list Parseable) (arg_order : list nat)
    (r : CSVReader) (line : string) : tuple Fields :=
  fst (parse_pack Fields arg_order r (Stream.open line)).

(** Is [s] the empty string? *)
Definition empty (s : string) : bool :=
  match s with EmptyString => true | _ => false end.

(** The stream once a read has run into the end of the input: with
    [failbit] when that read extracted nothing. *)
Definition drained (nothing_read : bool) : istream :=
  {| rdbuf := EmptyString; eofbit := true; failbit := nothing_read |}.

(** A reader at address 1 with the default separator, over a stream at
    address 2. *)
Module Sample.

Definition nl : string := String Chars.newline EmptyString.

Definition rd : addr := 1%positive.

Definition the_reader : CSVReader := CSVReader_new 2%positive None.

Definition memory_with (s : istream) : memory :=
  {| readers := {[ rd := the_reader ]};
     streams := {[ 2%positive := s ]} |}.

Definition memory_of (text : string) : memory := memory_with (Stream.open text).

(** The text of the two-line scenario, and an iterator over the sample
    reader with a given row cached. *)
Definition two_lines : string := "1,hello" +:+ nl +:+ "2,world" +:+ nl.

Definition cursor (row : tuple [Int; Str]) : iterator [Int; Str] :=
  {| current_ := row; reader := Some rd |}.

End Sample.

(** ** Vocabulary of the further properties *)

(** Does a white-space character occur in [s]? *)
Fixpoint has_space (s : string) : bool :=
  match s with
  | EmptyString => false
  | String c s' => (Chars.isspace c || has_space s')%bool
  end.

(** [m'] is [m] but, at most, for the stream at address [a]. *)
Definition same_elsewhere (a : addr) (m m' : memory) : Prop :=
  readers m' = readers m /\
  forall a', a' <> a -> streams m' !! a' = streams m !! a'.

(** The value of [int] that is nearest to [z]. *)
Definition saturate (z : Z) : Z :=
  Z.max Extract.INT_MIN (Z.min Extract.INT_MAX z).

(** [CSVReader<int, ..., int>] with [n] fields, and its row of the numbers
    [zs]. *)
Definition Ints (n : nat) : list Parseable := replicate n Int.

Fixpoint int_row (n : nat) (zs : list Z) : tuple (Ints n) :=
  match n return tuple (Ints n) with
  | O => tt
  | S n' =>
      (match zs with z :: _ => int_val z | [] => indeterminate end,
       int_row n' (tl zs))
  end.

(** Numbers written in decimal, [sep] between the numbers of a row and a
    line terminator between the rows (none after the last row). *)
Definition print_row (sep : ascii) (zs : list Z) : string :=
  join sep (map pretty zs).

Definition print_rows (sep : ascii) (rows : list (list Z)) : string :=
  join Chars.newline (map (print_row sep) rows).

(** A mask that makes the stream throw when [failbit] is raised, and a
    field type read like an [int] whose [operator>>] throws on a blank
    segment. *)
Definition throw_on_failbit (a : addr) : iostate :=
  {| mask_eof := false; mask_fail := true |}.

Definition Strict_int : Extractor :=
  {| type_of := Int;
     raised := fun inp _ =>
       if empty (Chars.skipws (rdbuf inp)) then Some (other "blank") else None |}.

(** * Properties *)

(** ** The reader's two methods *)

Section Reader_facts.

Variable Fields : list Parseable.
Variable arg_order : list nat.

Lemma has_next_row_live p m r s :
  readers m !! p = Some r ->
  streams m !! stream_ r = Some s ->
  has_next_row p m = Returns (negb (eofbit s)) m.
Proof.
  intros Hr Hs. unfold has_next_row, Cpp.bind, Memory.reader_at, Memory.stream_at.
  rewrite Hr, Hs. reflexivity.
Qed.

(** [has_next_row] is [const]: whatever it answers, nothing has changed. *)
Lemma has_next_row_inv p m b m' :
  has_next_row p m = Returns b m' ->
  m' = m /\ exists r s, readers m !! p = Some r /\
                        streams m !! stream_ r = Some s /\ b = negb (eofbit s).
Proof.
  unfold has_next_row, Cpp.bind, Memory.reader_at, Memory.stream_at, Cpp.ret, Stream.eof.
  destruct (readers m !! p) as [r|] eqn:Hr; [|discriminate].
  destruct (streams m !! stream_ r) as [s|] eqn:Hs; [|discriminate].
  intros [= <- <-]. eauto 6.
Qed.

Lemma has_next_row_no_throw p m e m' : has_next_row p m <> Throws e m'.
Proof.
  unfold has_next_row, Cpp.bind, Memory.reader_at, Memory.stream_at, Cpp.ret.
  destruct (readers m !! p) as [r|]; [|discriminate].
  destruct (streams m !! stream_ r); discriminate.
Qed.

Lemma next_row_at_eof p m r s :
  readers m !! p = Some r ->
  streams m !! stream_ r = Some s ->
  eofbit s = true ->
  next_row Fields arg_order p m = Throws (out_of_range "EOF") m.
Proof.
  intros Hr Hs He. unfold next_row, Cpp.bind.
  rewrite (has_next_row_live p m r s Hr Hs), He. reflexivity.
Qed.

(** Before the end of the stream, [next_row] reads one line and returns
    what the pack expansion makes of it. *)
Lemma next_row_line p m r s s' line :
  readers m !! p = Some r ->
  streams m !! stream_ r = Some s ->
  eofbit s = false ->
  Stream.getline s EmptyString Chars.newline = (s', line) ->
  next_row Fields arg_order p m =
    Returns (fst (parse_pack Fields arg_order r (Stream.open line)))
            (with_stream m r s').
Proof.
  intros Hr Hs He Hg. unfold next_row, Cpp.bind.
  rewrite (has_next_row_live p m r s Hr Hs), He. simpl.
  unfold Memory.reader_at, Memory.stream_at. rewrite Hr, Hs, Hg. reflexivity.
Qed.

End Reader_facts.

(** ** One step of the iterator *)

Section Iterator_facts.

Variable Fields : list Parseable.
Variable arg_order : list nat.

Lemma operator_inc_null (it : iterator Fields) m :
  reader it = None ->
  operator_inc Fields arg_order (it, m) = Throws (out_of_range "EOF") (it, m).
Proof.
  intros Hn. unfold operator_inc, Cpp.bind, this_. rewrite Hn. reflexivity.
Qed.

Lemma operator_inc_at_eof (it : iterator Fields) m p :
  reader it = Some p ->
  has_next_row p m = Returns false m ->
  let it' := {| current_ := current_ it; reader := None |} in
  operator_inc Fields arg_order (it, m) = Returns it' (it', m).
Proof.
  intros Hp Hn. unfold operator_inc, Cpp.bind, this_, Cpp.call.
  rewrite Hp, Hn. reflexivity.
Qed.

Lemma operator_inc_line (it : iterator Fields) m p r s s' line :
  reader it = Some p ->
  readers m !! p = Some r ->
  streams m !! stream_ r = Some s ->
  eofbit s = false ->
  Stream.getline s EmptyString Chars.newline = (s', line) ->
  let it' := {| current_ := fst (parse_pack Fields arg_order r (Stream.open line));
                reader := Some p |} in
  operator_inc Fields arg_order (it, m) = Returns it' (it', with_stream m r s').
Proof.
  intros Hp Hr Hs He Hg. unfold operator_inc, Cpp.bind, this_, Cpp.call.
  rewrite Hp, (has_next_row_live p m r s Hr Hs), He. simpl.
  rewrite (next_row_line Fields arg_order p m r s s' line Hr Hs He Hg).
  unfold set_current. simpl. rewrite Hp. reflexivity.
Qed.

End Iterator_facts.

(** ** Comparison of iterators *)

(** C9: [operator!=] answers [true] unless both iterators are exhausted
    (null reader) or both are bound to the same reader object; hence the
    [end()] sentinel differs from every active iterator and equals every
    exhausted one. *)
Theorem operator_ne_identity (Fields : list Parseable) (a b : iterator Fields) :
  (operator_ne a b = false <->
     (reader a = None /\ reader b = None) \/
     (exists p, reader a = Some p /\ reader b = Some p)) /\
  (forall p, reader a = Some p ->
     operator_ne a end_ = true /\ operator_ne end_ a = true) /\
  (reader a = None ->
     operator_ne a end_ = false /\ operator_ne end_ a = false).
Proof.
  unfold operator_ne, end_, iterator_default. simpl. repeat split.
  - rewrite negb_false_iff, bool_decide_eq_true. intros Heq.
    destruct (reader a) as [p|] eqn:Ha.
    + right. exists p. auto.
    + left. auto.
  - rewrite negb_false_iff, bool_decide_eq_true.
    intros [[-> ->] | (p & -> & ->)]; reflexivity.
  - rewrite H. reflexivity.
  - rewrite H. reflexivity.
  - rewrite H. reflexivity.
  - rewrite H. reflexivity.
Qed.

(** ** Advancing an exhausted iterator *)

(** C6: [operator++] on an iterator whose reader is null throws
    [std::out_of_range]; the iterator and the shared objects are as they
    were, so the iterator is still exhausted and nothing was restarted. *)
Theorem advance_exhausted_throws (Fields : list Parseable) (arg_order : list nat)
    (it : iterator Fields) (m : memory) :
  reader it = None ->
  operator_inc Fields arg_order (it, m) = Throws (out_of_range "EOF") (it, m) /\
  forall n, Cpp.times (S n) (operator_inc Fields arg_order) (it, m)
            = Throws (out_of_range "EOF") (it, m).
Proof.
  intros Hn. split.
  - apply operator_inc_null, Hn.
  - intros n. simpl. unfold Cpp.bind at 1.
    rewrite operator_inc_null by exact Hn. reflexivity.
Qed.

Lemma advance_exhausted_throws_witness :
  operator_inc [Int; Str] (left_to_right 2) (end_, Sample.memory_of "1,a")
    = Throws (out_of_range "EOF") (end_, Sample.memory_of "1,a").
Proof.
  apply (advance_exhausted_throws [Int; Str] (left_to_right 2) end_
           (Sample.memory_of "1,a")).
  reflexivity.
Defined.

(** ** [has_next_row] changes nothing *)

Lemma times_call_has_next_row (Fields : list Parseable) (it : iterator Fields)
    p m r s n :
  readers m !! p = Some r ->
  streams m !! stream_ r = Some s ->
  Cpp.times n (Cpp.call (has_next_row p)) (it, m)
    = Returns (replicate n (negb (eofbit s))) (it, m).
Proof.
  intros Hr Hs. induction n as [|n IH]; [reflexivity|].
  simpl. unfold Cpp.bind at 1. unfold Cpp.call at 1.
  rewrite (has_next_row_live p m r s Hr Hs).
  unfold Cpp.bind at 1. rewrite IH. reflexivity.
Qed.

(** C10: asking a reader [has_next_row] any number of times in a row
    leaves the stream (its position and its state bits) and the iterator
    (its cached row and its binding) as they were, and every call gives the
    same answer. *)
Theorem has_next_row_idempotent (Fields : list Parseable) (it : iterator Fields)
    (p : addr) (m : memory) (r : CSVReader) (s : istream) (n : nat) :
  readers m !! p = Some r ->
  streams m !! stream_ r = Some s ->
  has_next_row p m = Returns (negb (Stream.eof s)) m /\
  Cpp.times n (Cpp.call (has_next_row p)) (it, m)
    = Returns (replicate n (negb (Stream.eof s))) (it, m).
Proof.
  intros Hr Hs. split.
  - exact (has_next_row_live p m r s Hr Hs).
  - exact (times_call_has_next_row Fields it p m r s n Hr Hs).
Qed.

Lemma has_next_row_idempotent_witness :
  has_next_row Sample.rd (Sample.memory_of "2,world")
    = Returns true (Sample.memory_of "2,world") /\
  Cpp.times 3 (Cpp.call (has_next_row Sample.rd))
    (Sample.cursor (int_val 1, ("hello", tt)), Sample.memory_of "2,world")
    = Returns [true; true; true]
        (Sample.cursor (int_val 1, ("hello", tt)), Sample.memory_of "2,world").
Proof.
  apply (has_next_row_idempotent [Int; Str]
           (Sample.cursor (int_val 1, ("hello", tt))) Sample.rd
           (Sample.memory_of "2,world") Sample.the_reader
           (Stream.open "2,world") 3); reflexivity.
Defined.

(** ** [next_row] at the end of the stream and before it *)

Example next_row_throws_at_eof :
  next_row [Int; Str] (left_to_right 2) Sample.rd (Sample.memory_with (drained false))
    = Throws (out_of_range "EOF") (Sample.memory_with (drained false)).
Proof. reflexivity. Qed.

Example next_row_returns_before_eof :
  next_row [Int; Str] (left_to_right 2) Sample.rd (Sample.memory_of "1,hello")
    = Returns (int_val 1, ("hello", tt)) (Sample.memory_with (drained false)).
Proof. reflexivity. Qed.

(** ** Reaching the end: what the iterator keeps *)

(** C4, as the code has it: when the reader of an active iterator reports
    no next row, [operator++] returns normally, the iterator has lost its
    reader (it is exhausted), the shared objects are untouched, and the
    cached row is still the one cached before. *)
Theorem advance_to_exhausted_keeps_row (Fields : list Parseable)
    (arg_order : list nat) (it : iterator Fields) (m : memory) (p : addr) :
  reader it = Some p ->
  has_next_row p m = Returns false m ->
  exists it', operator_inc Fields arg_order (it, m) = Returns it' (it', m) /\
              reader it' = None /\
              operator_ne it' end_ = false /\
              current_ it' = current_ it.
Proof.
  intros Hp Hn.
  exists {| current_ := current_ it; reader := None |}. split; [|auto].
  exact (operator_inc_at_eof Fields arg_order it m p Hp Hn).
Qed.

Lemma advance_to_exhausted_keeps_row_witness :
  exists it',
    operator_inc [Int; Str] (left_to_right 2)
      (Sample.cursor (int_val 2, ("world", tt)), Sample.memory_with (drained false))
    = Returns it' (it', Sample.memory_with (drained false)) /\
    reader it' = None /\
    operator_ne it' end_ = false /\
    current_ it' = (int_val 2, ("world", tt)).
Proof.
  apply (advance_to_exhausted_keeps_row [Int; Str] (left_to_right 2)
           (Sample.cursor (int_val 2, ("world", tt)))
           (Sample.memory_with (drained false)) Sample.rd);
    reflexivity.
Defined.

(** C4, as stated, fails: after the transition to the exhausted state the
    row cached before, (1, "hello"), is still stored in the iterator and is
    what [operator*] returns; it is not the empty row of a fresh [end()]. *)
Lemma advance_to_exhausted_does_not_drop_row :
  has_next_row Sample.rd (Sample.memory_with (drained false))
    = Returns false (Sample.memory_with (drained false)) /\
  exists it',
    operator_inc [Int; Str] (left_to_right 2)
      (Sample.cursor (int_val 1, ("hello", tt)), Sample.memory_with (drained false))
    = Returns it' (it', Sample.memory_with (drained false)) /\
    reader it' = None /\
    operator_star [Int; Str] (it', Sample.memory_with (drained false))
    = Returns (int_val 1, ("hello", tt)) (it', Sample.memory_with (drained false)) /\
    current_ it' <> current_ (@end_ [Int; Str]).
Proof.
  split; [reflexivity|].
  exists (@mk_iterator [Int; Str] (int_val 1, ("hello", tt)) None).
  repeat split; try reflexivity. simpl. discriminate.
Qed.


Example deref_after_last_row :
  (_ <- operator_inc [Int; Str] (left_to_right 2) ;; operator_star [Int; Str])
    (Sample.cursor (int_val 2, ("world", tt)), Sample.memory_with (drained false))
  = Returns (int_val 2, ("world", tt))
      (@mk_iterator [Int; Str] (int_val 2, ("world", tt)) None,
       Sample.memory_with (drained false)).
Proof. reflexivity. Qed.

Example deref_end :
  operator_star [Int; Str] (end_, Sample.memory_of "")
    = Returns (int_val 0, ("", tt)) (end_, Sample.memory_of "").
Proof. reflexivity. Qed.

(** ** Splitting a line *)

Section Splitting.

Variable sep : ascii.

Lemma append_nil_l (b : string) : EmptyString +:+ b = b.
Proof. reflexivity. Qed.

Lemma append_cons (x : ascii) (a b : string) :
  String x a +:+ b = String x (a +:+ b).
Proof. reflexivity. Qed.

Lemma append_String_assoc (a b c : string) : (a +:+ b) +:+ c = a +:+ (b +:+ c).
Proof.
  induction a as [|x a IH]; [reflexivity|].
  rewrite !append_cons, IH. reflexivity.
Qed.

Lemma until_found (seg rest : string) :
  occurs sep seg = false ->
  Stream.until sep (seg +:+ String sep rest) = (seg, Some rest).
Proof.
  induction seg as [|c seg IH].
  - intros _. rewrite append_nil_l. simpl. rewrite Ascii.eqb_refl. reflexivity.
  - simpl. intros H. apply orb_false_iff in H as [Hc Hs].
    rewrite Hc, (IH Hs). reflexivity.
Qed.

Lemma until_end (seg : string) :
  occurs sep seg = false -> Stream.until sep seg = (seg, None).
Proof.
  induction seg as [|c seg IH]; simpl; [reflexivity|].
  intros H. apply orb_false_iff in H as [Hc Hs].
  rewrite Hc, (IH Hs). reflexivity.
Qed.

(** A segment followed by the delimiter: [getline] hands out the segment
    and the stream stays good. *)
Lemma getline_segment (seg rest str : string) :
  occurs sep seg = false ->
  Stream.getline (Stream.open (seg +:+ String sep rest)) str sep
    = (Stream.open rest, seg).
Proof.
  intros H. unfold Stream.getline. simpl. rewrite (until_found seg rest H).
  reflexivity.
Qed.

(** The last segment: [getline] hands it out and the stream is at its
    end. *)
Lemma getline_last (seg str : string) :
  occurs sep seg = false ->
  Stream.getline (Stream.open seg) str sep
    = (drained (empty seg), seg).
Proof.
  intros H. unfold Stream.getline. simpl. rewrite (until_end seg H).
  reflexivity.
Qed.

(** On a stream that is not good, [getline] leaves its string alone. *)
Lemma getline_drained (b : bool) (str : string) :
  Stream.getline (drained b) str sep = (drained true, str).
Proof. reflexivity. Qed.

(** [until] cuts off the first of the substrings that [split] lists. *)
Lemma until_split (s : string) :
  match Stream.until sep s with
  | (seg, Some rest) =>
      split sep s = seg :: split sep rest /\
      occurrences sep s = S (occurrences sep rest)
  | (seg, None) => split sep s = [seg] /\ occurrences sep s = O
  end.
Proof.
  induction s as [|c s IH]; simpl; [auto|].
  destruct (Ascii.eqb c sep); [auto|].
  destruct (Stream.until sep s) as [l [rest|]]; destruct IH as [-> ->]; auto.
Qed.

Lemma split_no_separator (s : string) :
  Forall (fun seg => occurs sep seg = false) (split sep s).
Proof.
  induction s as [|c s IH]; simpl; [repeat constructor|].
  destruct (Ascii.eqb c sep) eqn:Hc; [constructor; [reflexivity | exact IH]|].
  destruct (split sep s) as [|seg segs]; [repeat constructor; simpl; rewrite Hc; reflexivity|].
  apply Forall_cons in IH as [Hseg Hsegs]. constructor; [|exact Hsegs].
  simpl. rewrite Hc, Hseg. reflexivity.
Qed.

Lemma split_length (s : string) : length (split sep s) = S (occurrences sep s).
Proof.
  induction s as [|c s IH]; simpl; [reflexivity|].
  destruct (Ascii.eqb c sep); simpl; [rewrite IH; reflexivity|].
  destruct (split sep s); simpl in *; [discriminate | exact IH].
Qed.

Lemma take_padded_length (n : nat) (segs : list string) :
  length (take_padded n segs) = n.
Proof. revert segs. induction n as [|n IH]; intros segs; simpl; [|rewrite IH]; reflexivity. Qed.

Lemma take_padded_take (n : nat) (segs : list string) :
  (n <= length segs)%nat -> take_padded n segs = take n segs.
Proof.
  revert segs. induction n as [|n IH]; intros segs Hn; [reflexivity|].
  destruct segs as [|seg segs]; simpl in *; [lia|].
  rewrite IH by lia. reflexivity.
Qed.

(** Once the stream has run into its end, every further [getline] fails
    and leaves its string empty. *)
Lemma getlines_drained (n : nat) (b : bool) :
  fst (getlines n (drained b) sep) = take_padded n [].
Proof.
  revert b. induction n as [|n IH]; intros b; [reflexivity|].
  cbn [getlines]. rewrite getline_drained.
  specialize (IH true). destruct (getlines n (drained true) sep) as [tmps ss''].
  simpl in IH |- *. rewrite IH. reflexivity.
Qed.

(** [n] calls of [getline] on a line hand out its first [n] segments, and
    empty strings once the line has no segment left. *)
Lemma getlines_split (n : nat) (line : string) :
  fst (getlines n (Stream.open line) sep) = take_padded n (split sep line).
Proof.
  revert line. induction n as [|n IH]; intros line; [reflexivity|].
  cbn [getlines].
  change (Stream.getline (Stream.open line) EmptyString sep)
    with (match Stream.until sep line with
          | (l, Some rest) => (Stream.open rest, l)
          | (l, None) => (drained (empty l), l)
          end).
  pose proof (until_split line) as Hu.
  destruct (Stream.until sep line) as [seg [rest|]]; destruct Hu as [Hsplit _].
  - specialize (IH rest).
    destruct (getlines n (Stream.open rest) sep) as [tmps ss''].
    rewrite Hsplit. cbn [fst hd tl take_padded] in IH |- *. f_equal. exact IH.
  - pose proof (getlines_drained n (empty seg)) as Hd.
    destruct (getlines n (drained (empty seg)) sep) as [tmps ss''].
    rewrite Hsplit. cbn [fst hd tl take_padded] in Hd |- *. f_equal. exact Hd.
Qed.

(** [n] segments and nothing else are handed out one by one as well. *)
Lemma getlines_exact (segs : list string) :
  Forall (fun seg => occurs sep seg = false) segs ->
  fst (getlines (length segs) (Stream.open (join sep segs)) sep) = segs.
Proof.
  induction 1 as [|seg segs Hseg Hsegs IH]; [reflexivity|].
  destruct segs as [|seg2 segs].
  - simpl. rewrite (getline_last seg _ Hseg). reflexivity.
  - change (join sep (seg :: seg2 :: segs))
      with (seg +:+ String sep (join sep (seg2 :: segs))).
    change (length (seg :: seg2 :: segs)) with (S (length (seg2 :: segs))).
    cbn [getlines]. rewrite (getline_segment seg _ _ Hseg).
    destruct (getlines (length (seg2 :: segs))
                (Stream.open (join sep (seg2 :: segs))) sep)
      as [tmps ss''] eqn:Hg.
    simpl in IH |- *. rewrite IH. reflexivity.
Qed.

End Splitting.

(** ** The pack expansion [parse<Fields>(ss)...] *)

Section Pack.

Variable this : CSVReader.

Lemma parse_getline (T : Parseable) (ss : istream) :
  parse T this ss =
    (convert T (snd (Stream.getline ss EmptyString (separator_ this))),
     fst (Stream.getline ss EmptyString (separator_ this))).
Proof.
  unfold parse, convert.
  destruct (Stream.getline ss EmptyString (separator_ this)) as [ss' tmp]. simpl.
  destruct (extract T (Stream.open tmp) (default_init T)). reflexivity.
Qed.

(** Whatever its type, the argument at a position of the pack takes the
    next substring off [ss]. *)
Lemma parse_arg_getline (Fields : list Parseable) (i : nat)
    (args : tuple Fields) (ss : istream) :
  (i < length Fields)%nat ->
  parse_arg Fields this i args ss =
    (set_arg Fields i (snd (Stream.getline ss EmptyString (separator_ this))) args,
     fst (Stream.getline ss EmptyString (separator_ this))).
Proof.
  revert i args. induction Fields as [|T Ts IH]; intros i args Hi.
  - simpl in Hi. lia.
  - destruct args as [x xs]. destruct i as [|j]; simpl.
    + rewrite parse_getline. reflexivity.
    + rewrite IH by (simpl in Hi; lia). reflexivity.
Qed.

Lemma parse_args_getlines (Fields : list Parseable) (order : list nat)
    (args : tuple Fields) (ss : istream) :
  Forall (fun i => (i < length Fields)%nat) order ->
  fold_left (fun '(args, ss) i => parse_arg Fields this i args ss) order (args, ss)
  = (fold_left (fun args '(i, seg) => set_arg Fields i seg args)
       (zip order (fst (getlines (length order) ss (separator_ this)))) args,
     snd (getlines (length order) ss (separator_ this))).
Proof.
  intros Hall. revert args ss.
  induction Hall as [|i order Hi Hall IH]; intros args ss; [reflexivity|].
  cbn [fold_left length getlines].
  rewrite (parse_arg_getline Fields i args ss Hi).
  destruct (Stream.getline ss EmptyString (separator_ this)) as [ss' tmp].
  cbn [fst snd]. rewrite IH.
  destruct (getlines (length order) ss' (separator_ this)) as [tmps ss''].
  reflexivity.
Qed.

Lemma positions_valid (n : nat) (order : list nat) :
  order ≡ₚ seq 0 n -> Forall (fun i => (i < n)%nat) order /\ length order = n.
Proof.
  intros Hp. split.
  - rewrite Hp. apply Forall_seq. intros j Hj. lia.
  - rewrite Hp. apply length_seq.
Qed.

(** The row built from a line depends on the first N substrings of the
    line and on nothing else. *)
Lemma parse_pack_segments (Fields : list Parseable) (order : list nat)
    (ss : istream) :
  order ≡ₚ seq 0 (length Fields) ->
  fst (parse_pack Fields order this ss)
  = row_of_segments Fields order
      (fst (getlines (length Fields) ss (separator_ this))).
Proof.
  intros Hp. destruct (positions_valid _ _ Hp) as [Hall Hlen].
  unfold parse_pack, row_of_segments.
  rewrite (parse_args_getlines Fields order (pending Fields) ss Hall), Hlen.
  reflexivity.
Qed.

(** The row of a line is built from the first N segments of the line,
    empty strings standing in for the segments the line does not have. *)
Lemma parse_pack_line (Fields : list Parseable) (order : list nat)
    (line : string) :
  order ≡ₚ seq 0 (length Fields) ->
  fst (parse_pack Fields order this (Stream.open line))
  = row_of_segments Fields order
      (take_padded (length Fields) (split (separator_ this) line)).
Proof.
  intros Hp. rewrite (parse_pack_segments Fields order _ Hp), getlines_split.
  reflexivity.
Qed.

Lemma convert_all_take_padded (Fields : list Parseable) (segs : list string) :
  convert_all Fields (take_padded (length Fields) segs) = convert_all Fields segs.
Proof.
  revert segs. induction Fields as [|T Ts IH]; intros segs; [reflexivity|].
  simpl. rewrite IH. reflexivity.
Qed.

Lemma set_arg_shift (T : Parseable) (Ts : list Parseable) (order : list nat)
    (segs : list string) (x : carrier T) (xs : tuple Ts) :
  fold_left (fun args '(i, seg) => set_arg (T :: Ts) i seg args)
    (zip (map S order) segs) ((x, xs) : tuple (T :: Ts))
  = (x, fold_left (fun args '(i, seg) => set_arg Ts i seg args)
          (zip order segs) xs).
Proof.
  revert segs xs. induction order as [|i order IH]; intros segs xs; [reflexivity|].
  destruct segs as [|seg segs]; [reflexivity|].
  simpl. apply IH.
Qed.

(** In textual order, element i is the conversion of substring i. *)
Lemma row_of_segments_left_to_right (Fields : list Parseable)
    (segs : list string) (args : tuple Fields) :
  length segs = length Fields ->
  fold_left (fun args '(i, seg) => set_arg Fields i seg args)
    (zip (left_to_right (length Fields)) segs) args
  = convert_all Fields segs.
Proof.
  revert segs args. induction Fields as [|T Ts IH]; intros segs args Hlen.
  - destruct args. reflexivity.
  - destruct segs as [|seg segs]; [discriminate|]. destruct args as [x xs].
    unfold left_to_right in *. cbn [length seq].
    rewrite <- seq_shift. cbn [zip zip_with fold_left set_arg].
    rewrite set_arg_shift. cbn [convert_all hd tl].
    rewrite IH by (simpl in Hlen; lia). reflexivity.
Qed.

End Pack.

(** ** Lines with more segments than fields *)

(** C8: of a line with at least N occurrences of the separator, [next_row]
    returns without error the row built from the first N segments of the
    line: the same row as for the line cut after its N-th segment, whatever
    follows. *)
Theorem next_row_discards_excess (Fields : list Parseable) (arg_order : list nat)
    (p : addr) (m : memory) (r : CSVReader) (s s' : istream) (line : string) :
  readers m !! p = Some r ->
  streams m !! stream_ r = Some s ->
  eofbit s = false ->
  arg_order ≡ₚ seq 0 (length Fields) ->
  Stream.getline s EmptyString Chars.newline = (s', line) ->
  (length Fields <= occurrences (separator_ r) line)%nat ->
  next_row Fields arg_order p m
    = Returns
        (row_of_segments Fields arg_order
           (take (length Fields) (split (separator_ r) line)))
        (with_stream m r s') /\
  row_of_line Fields arg_order r
    (join (separator_ r) (take (length Fields) (split (separator_ r) line)))
    = row_of_segments Fields arg_order
        (take (length Fields) (split (separator_ r) line)).
Proof.
  intros Hr Hs He Hp Hg Hn.
  assert (Hlen : (length Fields <= length (split (separator_ r) line))%nat)
    by (rewrite split_length; lia).
  split.
  - rewrite (next_row_line Fields arg_order p m r s s' _ Hr Hs He Hg).
    rewrite (parse_pack_line r Fields arg_order _ Hp).
    rewrite (take_padded_take _ _ Hlen). reflexivity.
  - unfold row_of_line.
    rewrite (parse_pack_segments r Fields arg_order _ Hp).
    replace (length Fields)
      with (length (take (length Fields) (split (separator_ r) line))) at 1
      by (rewrite length_take; lia).
    rewrite getlines_exact; [reflexivity|].
    apply Forall_take, split_no_separator.
Qed.

Lemma next_row_discards_excess_witness :
  next_row [Int] (left_to_right 1) Sample.rd (Sample.memory_of ("7,8,9" +:+ Sample.nl))
    = Returns (int_val 7, tt)
        (with_stream (Sample.memory_of ("7,8,9" +:+ Sample.nl)) Sample.the_reader
           (Stream.open "")) /\
  row_of_line [Int] (left_to_right 1) Sample.the_reader "7" = (int_val 7, tt).
Proof.
  apply (next_row_discards_excess [Int] (left_to_right 1) Sample.rd
           (Sample.memory_of ("7,8,9" +:+ Sample.nl))
           Sample.the_reader (Stream.open ("7,8,9" +:+ Sample.nl)) (Stream.open "")
           "7,8,9").
  - reflexivity.
  - reflexivity.
  - reflexivity.
  - reflexivity.
  - reflexivity.
  - simpl. lia.
Defined.

(** ** Which substring a field receives *)

(** When the implementation evaluates the arguments in textual order, the
    row of a line has, at each position, the conversion of the segment at
    that position to the type declared there (of the empty string when the
    line has no such segment). *)
Lemma row_of_line_left_to_right (Fields : list Parseable) (r : CSVReader)
    (line : string) :
  row_of_line Fields (left_to_right (length Fields)) r line
    = convert_all Fields (split (separator_ r) line).
Proof.
  unfold row_of_line.
  rewrite (parse_pack_line r Fields (left_to_right (length Fields)) line
             (reflexivity _)).
  unfold row_of_segments.
  rewrite (row_of_segments_left_to_right Fields _ _ (take_padded_length _ _)).
  apply convert_all_take_padded.
Qed.

Lemma next_row_left_to_right (Fields : list Parseable)
    (p : addr) (m : memory) (r : CSVReader) (s s' : istream) (line : string) :
  readers m !! p = Some r ->
  streams m !! stream_ r = Some s ->
  eofbit s = false ->
  Stream.getline s EmptyString Chars.newline = (s', line) ->
  next_row Fields (left_to_right (length Fields)) p m
    = Returns (convert_all Fields (split (separator_ r) line)) (with_stream m r s').
Proof.
  intros Hr Hs He Hg.
  rewrite (next_row_line Fields _ p m r s s' _ Hr Hs He Hg).
  fold (row_of_line Fields (left_to_right (length Fields)) r line).
  rewrite row_of_line_left_to_right. reflexivity.
Qed.

(** C3 fails on an implementation that evaluates the arguments of a call
    from the last to the first: of the line "1,hello" the text field is
    parsed first and receives "1", the integer field is parsed second and
    receives "hello", which is no number. *)
Theorem next_row_right_to_left_crosses_fields :
  next_row [Int; Str] (right_to_left 2) Sample.rd
    (Sample.memory_of ("1,hello" +:+ Sample.nl))
    = Returns (int_val 0, ("1", tt)) (Sample.memory_of "") /\
  next_row [Int; Str] (left_to_right 2) Sample.rd
    (Sample.memory_of ("1,hello" +:+ Sample.nl))
    = Returns (int_val 1, ("hello", tt)) (Sample.memory_of "").
Proof. split; reflexivity. Qed.

(** ** The range-based loop *)

Section Loop.

Variable Fields : list Parseable.
Variable arg_order : list nat.

Lemma with_stream_readers m r s : readers (with_stream m r s) = readers m.
Proof. reflexivity. Qed.

Lemma with_stream_lookup m r s :
  streams (with_stream m r s) !! stream_ r = Some s.
Proof. unfold with_stream. simpl. apply lookup_insert_eq. Qed.

Lemma with_stream_twice m r s1 s2 :
  with_stream (with_stream m r s1) r s2 = with_stream m r s2.
Proof. unfold with_stream. simpl. f_equal. apply insert_insert_eq. Qed.

Lemma loop_exhausted fuel rows (it : iterator Fields) m :
  reader it = None ->
  loop Fields arg_order (S fuel) rows (it, m) = Returns (Some rows) (it, m).
Proof.
  intros Hn. cbn [loop]. unfold Cpp.bind, this_, operator_ne. simpl.
  rewrite Hn. reflexivity.
Qed.

(** One turn of the loop on an active iterator: the cached row is
    collected and the iterator is advanced. *)
Lemma loop_active fuel rows (it it' : iterator Fields) m m' p :
  reader it = Some p ->
  operator_inc Fields arg_order (it, m) = Returns it' (it', m') ->
  loop Fields arg_order (S fuel) rows (it, m)
    = loop Fields arg_order fuel (rows ++ [current_ it])%list (it', m').
Proof.
  intros Hp Hinc. cbn [loop]. unfold Cpp.bind at 1. unfold this_ at 1.
  unfold operator_ne. simpl. rewrite Hp. simpl.
  unfold Cpp.bind at 1. unfold operator_star, Cpp.bind at 1, this_ at 1. simpl.
  unfold Cpp.bind at 1. rewrite Hinc. reflexivity.
Qed.

Lemma loop_at_eof fuel rows (it : iterator Fields) m p r s :
  reader it = Some p ->
  readers m !! p = Some r ->
  streams m !! stream_ r = Some s ->
  eofbit s = true ->
  loop Fields arg_order (S (S fuel)) rows (it, m)
    = Returns (Some (rows ++ [current_ it])%list)
              ({| current_ := current_ it; reader := None |}, m).
Proof.
  intros Hp Hr Hs He.
  assert (Hn : has_next_row p m = Returns false m).
  { rewrite (has_next_row_live p m r s Hr Hs), He. reflexivity. }
  rewrite (loop_active (S fuel) rows it _ m m p Hp
             (operator_inc_at_eof Fields arg_order it m p Hp Hn)).
  apply loop_exhausted. reflexivity.
Qed.

(** With the lines that are left still to be read, the loop collects the
    cached row and one row per line, the text after the last line
    terminator counting as a line. *)
Lemma loop_lines (lines : list string) :
  lines <> [] ->
  Forall (fun l => occurs Chars.newline l = false) lines ->
  forall fuel rows (it : iterator Fields) m p r,
    reader it = Some p ->
    readers m !! p = Some r ->
    streams m !! stream_ r = Some (Stream.open (join Chars.newline lines)) ->
    loop Fields arg_order (length lines + 2 + fuel) rows (it, m)
      = Returns
          (Some (rows ++ current_ it :: map (row_of_line Fields arg_order r) lines)%list)
          ({| current_ := row_of_line Fields arg_order r (List.last lines EmptyString);
              reader := None |},
           with_stream m r (drained (empty (List.last lines EmptyString)))).
Proof.
  intros Hne Hall. induction Hall as [|l ls Hl Hls IH]; [congruence|].
  intros fuel rows it m p r Hp Hr Hs.
  destruct ls as [|l2 ls].
  - change (length [l] + 2 + fuel)%nat with (S (S (S fuel))).
    rewrite (loop_active _ rows it _ m _ p Hp
               (operator_inc_line Fields arg_order it m p r _ _ l Hp Hr Hs eq_refl
                  (getline_last Chars.newline l _ Hl))).
    erewrite loop_at_eof;
      [| reflexivity | exact Hr | apply with_stream_lookup | reflexivity].
    simpl. rewrite <- app_assoc. reflexivity.
  - change (length (l :: l2 :: ls) + 2 + fuel)%nat
      with (S (length (l2 :: ls) + 2 + fuel)).
    rewrite (loop_active _ rows it _ m _ p Hp
               (operator_inc_line Fields arg_order it m p r _ _ l Hp Hr Hs eq_refl
                  (getline_segment Chars.newline l _ _ Hl))).
    erewrite IH;
      [| discriminate | reflexivity | exact Hr | apply with_stream_lookup].
    rewrite with_stream_twice, <- app_assoc. reflexivity.
Qed.

(** [begin()] before the end of the stream reads the first line. *)
Lemma begin_line p m r s s' line :
  readers m !! p = Some r ->
  streams m !! stream_ r = Some s ->
  eofbit s = false ->
  Stream.getline s EmptyString Chars.newline = (s', line) ->
  begin_ Fields arg_order p m
    = Returns {| current_ := row_of_line Fields arg_order r line; reader := Some p |}
              (with_stream m r s').
Proof.
  intros Hr Hs He Hg. unfold begin_, Cpp.bind, Memory.reader_at. rewrite Hr.
  unfold iterator_of.
  erewrite operator_inc_line;
    [| reflexivity | exact Hr | exact Hs | exact He | exact Hg].
  reflexivity.
Qed.

(** [begin()] on a stream whose [eofbit] is set gives an exhausted
    iterator. *)
Lemma begin_at_eof p m r s :
  readers m !! p = Some r ->
  streams m !! stream_ r = Some s ->
  eofbit s = true ->
  begin_ Fields arg_order p m = Returns end_ m.
Proof.
  intros Hr Hs He. unfold begin_, Cpp.bind, Memory.reader_at. rewrite Hr.
  unfold iterator_of.
  assert (Hn : has_next_row p m = Returns false m).
  { rewrite (has_next_row_live p m r s Hr Hs), He. reflexivity. }
  erewrite operator_inc_at_eof; [| reflexivity | exact Hn]. reflexivity.
Qed.

(** The rows of a text: one per piece between line terminators, the
    piece after the last terminator included even when it is empty. *)
Lemma range_for_separated_lines (lines : list string) fuel p m r :
  lines <> [] ->
  Forall (fun l => occurs Chars.newline l = false) lines ->
  readers m !! p = Some r ->
  streams m !! stream_ r = Some (Stream.open (join Chars.newline lines)) ->
  (length lines + 1 <= fuel)%nat ->
  range_for Fields arg_order fuel p m
    = Returns (Some (map (row_of_line Fields arg_order r) lines))
              (with_stream m r (drained (empty (List.last lines EmptyString)))).
Proof.
  intros Hne Hall Hr Hs Hfuel. unfold range_for.
  destruct lines as [|l ls]; [congruence|].
  apply Forall_cons in Hall as [Hl Hls].
  destruct ls as [|l2 ls].
  - rewrite (begin_line p m r _ _ l Hr Hs eq_refl (getline_last Chars.newline l _ Hl)).
    simpl in Hfuel. destruct fuel as [|[|fuel]]; [lia|lia|].
    erewrite loop_at_eof;
      [| reflexivity | exact Hr | apply with_stream_lookup | reflexivity].
    reflexivity.
  - rewrite (begin_line p m r _ _ l Hr Hs eq_refl
               (getline_segment Chars.newline l _ _ Hl)).
    replace fuel with (length (l2 :: ls) + 2 + (fuel - length (l2 :: ls) - 2))%nat
      by (simpl in Hfuel |- *; lia).
    erewrite (loop_lines (l2 :: ls));
      [| discriminate | exact Hls | reflexivity | exact Hr | apply with_stream_lookup].
    rewrite with_stream_twice. reflexivity.
Qed.

End Loop.

(** ** How many rows a text gives *)

Lemma unlines_join (lines : list string) :
  unlines lines = join Chars.newline (lines ++ [EmptyString]).
Proof.
  induction lines as [|l ls IH]; [reflexivity|].
  simpl. rewrite IH. destruct ls; reflexivity.
Qed.

(** C1 fails on the code by one row: over a text of K lines, each closed by
    its line terminator, the loop from [begin()] to [end()] collects the K
    rows of the lines, in order, and then one more row, made of the empty
    text that follows the last terminator. *)
Theorem range_for_terminated_lines (Fields : list Parseable) (arg_order : list nat)
    (lines : list string) (fuel : nat) (p : addr) (m : memory) (r : CSVReader) :
  Forall (fun l => occurs Chars.newline l = false) lines ->
  readers m !! p = Some r ->
  streams m !! stream_ r = Some (Stream.open (unlines lines)) ->
  (length lines + 2 <= fuel)%nat ->
  range_for Fields arg_order fuel p m
    = Returns (Some (map (row_of_line Fields arg_order r) lines
                     ++ [row_of_line Fields arg_order r EmptyString])%list)
              (with_stream m r (drained true)).
Proof.
  intros Hall Hr Hs Hfuel. rewrite unlines_join in Hs.
  rewrite (range_for_separated_lines Fields arg_order (lines ++ [EmptyString])
             fuel p m r).
  - rewrite map_app, last_last. reflexivity.
  - destruct lines; discriminate.
  - apply Forall_app. split; [exact Hall | repeat constructor].
  - exact Hr.
  - exact Hs.
  - rewrite length_app. simpl. lia.
Qed.

Lemma range_for_terminated_lines_witness :
  range_for [Int; Str] (left_to_right 2) 4 Sample.rd (Sample.memory_of Sample.two_lines)
    = Returns (Some [(int_val 1, ("hello", tt)); (int_val 2, ("world", tt));
                     (indeterminate, ("", tt))])
              (with_stream (Sample.memory_of Sample.two_lines) Sample.the_reader
                 (drained true)).
Proof.
  apply (range_for_terminated_lines [Int; Str] (left_to_right 2)
           ["1,hello"; "2,world"] 4 Sample.rd (Sample.memory_of Sample.two_lines)
           Sample.the_reader).
  - repeat constructor.
  - reflexivity.
  - reflexivity.
  - simpl. lia.
Defined.

(** Without a terminator after the last line the count is right. *)
Example range_for_unterminated_last_line :
  range_for [Int; Str] (left_to_right 2) 3 Sample.rd
    (Sample.memory_of ("1,hello" +:+ Sample.nl +:+ "2,world"))
  = Returns (Some [(int_val 1, ("hello", tt)); (int_val 2, ("world", tt))])
            (Sample.memory_with (drained false)).
Proof. reflexivity. Qed.

(** C2 fails on the code: on a stream of zero bytes [eofbit] is not set
    yet, so [begin()] reads a line, caches the row made of the empty text
    and returns an active iterator, different from [end()]; the loop then
    collects that one row. *)
Theorem begin_on_empty_stream_is_active (Fields : list Parseable)
    (arg_order : list nat) (p : addr) (m : memory) (r : CSVReader) :
  readers m !! p = Some r ->
  streams m !! stream_ r = Some (Stream.open EmptyString) ->
  exists it,
    begin_ Fields arg_order p m = Returns it (with_stream m r (drained true)) /\
    reader it = Some p /\
    operator_ne it end_ = true /\
    current_ it = row_of_line Fields arg_order r EmptyString /\
    range_for Fields arg_order 2 p m
      = Returns (Some [row_of_line Fields arg_order r EmptyString])
                (with_stream m r (drained true)).
Proof.
  intros Hr Hs.
  exists {| current_ := row_of_line Fields arg_order r EmptyString; reader := Some p |}.
  split; [|split; [|split; [|split]]]; try reflexivity.
  - exact (begin_line Fields arg_order p m r _ _ EmptyString Hr Hs eq_refl eq_refl).
  - exact (range_for_separated_lines Fields arg_order [EmptyString] 2 p m r
             ltac:(discriminate) ltac:(repeat constructor) Hr Hs ltac:(simpl; lia)).
Qed.

Lemma begin_on_empty_stream_is_active_witness :
  exists it,
    begin_ [Int; Str] (left_to_right 2) Sample.rd (Sample.memory_of "")
      = Returns it (with_stream (Sample.memory_of "") Sample.the_reader (drained true)) /\
    reader it = Some Sample.rd /\
    operator_ne it end_ = true /\
    current_ it = (indeterminate, ("", tt)) /\
    range_for [Int; Str] (left_to_right 2) 2 Sample.rd (Sample.memory_of "")
      = Returns (Some [(indeterminate, ("", tt))])
                (with_stream (Sample.memory_of "") Sample.the_reader (drained true)).
Proof.
  apply (begin_on_empty_stream_is_active [Int; Str] (left_to_right 2) Sample.rd
           (Sample.memory_of "") Sample.the_reader); reflexivity.
Defined.

(** Only a stream whose [eofbit] is already set makes [begin()] equal to
    [end()]. *)
Example begin_on_drained_stream :
  begin_ [Int; Str] (left_to_right 2) Sample.rd (Sample.memory_with (drained true))
    = Returns end_ (Sample.memory_with (drained true)).
Proof. reflexivity. Qed.

(** * Further properties *)

(** ** The rows of any text *)

Lemma join_split (sep : ascii) (s : string) : join sep (split sep s) = s.
Proof.
  induction s as [|c s IH]; [reflexivity|]. simpl.
  destruct (Ascii.eqb_spec c sep) as [->|Hne].
  - destruct (split sep s) as [|seg segs] eqn:Hs; simpl in IH |- *.
    + rewrite <- IH. pose proof (split_length sep s) as Hl. rewrite Hs in Hl.
      discriminate.
    + rewrite IH. reflexivity.
  - destruct (split sep s) as [|seg segs] eqn:Hs; simpl in IH |- *.
    + rewrite <- IH. reflexivity.
    + destruct segs; rewrite <- IH; reflexivity.
Qed.

Lemma split_nonempty (sep : ascii) (s : string) : split sep s <> [].
Proof.
  intros H. pose proof (split_length sep s) as Hl. rewrite H in Hl. discriminate.
Qed.

Lemma range_for_split (Fields : list Parseable) (arg_order : list nat)
    (text : string) (fuel : nat) (p : addr) (m : memory) (r : CSVReader) :
  readers m !! p = Some r ->
  streams m !! stream_ r = Some (Stream.open text) ->
  (occurrences Chars.newline text + 2 <= fuel)%nat ->
  range_for Fields arg_order fuel p m
    = Returns (Some (map (row_of_line Fields arg_order r) (split Chars.newline text)))
        (with_stream m r
           (drained (empty (List.last (split Chars.newline text) EmptyString)))).
Proof.
  intros Hr Hs Hfuel.
  apply range_for_separated_lines.
  - apply split_nonempty.
  - apply split_no_separator.
  - exact Hr.
  - rewrite join_split. exact Hs.
  - rewrite split_length. lia.
Qed.

Lemma range_for_at_eof (Fields : list Parseable) (arg_order : list nat)
    (fuel : nat) (p : addr) (m : memory) (r : CSVReader) (s : istream) :
  readers m !! p = Some r ->
  streams m !! stream_ r = Some s ->
  eofbit s = true ->
  range_for Fields arg_order (S fuel) p m = Returns (Some []) m.
Proof.
  intros Hr Hs He. unfold range_for.
  rewrite (begin_at_eof Fields arg_order p m r s Hr Hs He).
  rewrite loop_exhausted by reflexivity. reflexivity.
Qed.

(** X1: over a freshly opened stream of any text, the loop from [begin()]
    to [end()] ends and collects one row per piece of text between line
    terminators, in order: one more row than the text has terminators, the
    last one made of whatever follows the last terminator. *)
Theorem range_for_any_text (Fields : list Parseable) (arg_order : list nat)
    (text : string) (fuel : nat) (p : addr) (m : memory) (r : CSVReader) :
  readers m !! p = Some r ->
  streams m !! stream_ r = Some (Stream.open text) ->
  (occurrences Chars.newline text + 2 <= fuel)%nat ->
  exists rows m',
    range_for Fields arg_order fuel p m = Returns (Some rows) m' /\
    rows = map (row_of_line Fields arg_order r) (split Chars.newline text) /\
    length rows = S (occurrences Chars.newline text) /\
    (exists s', streams m' !! stream_ r = Some s' /\ eofbit s' = true).
Proof.
  intros Hr Hs Hfuel. eexists. eexists. split; [|split; [|split]].
  - exact (range_for_split Fields arg_order text fuel p m r Hr Hs Hfuel).
  - reflexivity.
  - rewrite length_map. apply split_length.
  - eexists. split; [apply with_stream_lookup | reflexivity].
Qed.

Lemma range_for_any_text_witness :
  exists rows m',
    range_for [Int; Str] (left_to_right 2) 3 Sample.rd
      (Sample.memory_of ("1,hello" +:+ Sample.nl +:+ "2,world"))
    = Returns (Some rows) m' /\
    rows = map (row_of_line [Int; Str] (left_to_right 2) Sample.the_reader)
               (split Chars.newline ("1,hello" +:+ Sample.nl +:+ "2,world")) /\
    length rows = 2%nat /\
    (exists s', streams m' !! stream_ Sample.the_reader = Some s' /\ eofbit s' = true).
Proof.
  apply (range_for_any_text [Int; Str] (left_to_right 2)
           ("1,hello" +:+ Sample.nl +:+ "2,world") 3 Sample.rd
           (Sample.memory_of ("1,hello" +:+ Sample.nl +:+ "2,world"))
           Sample.the_reader).
  - reflexivity.
  - reflexivity.
  - simpl. lia.
Defined.

(** ** A stream is read once *)

(** X2: the reader makes a single pass: once a loop over a text has ended,
    a second loop over the same reader collects no row and changes
    nothing. *)
Theorem second_pass_is_empty (Fields : list Parseable) (arg_order : list nat)
    (text : string) (fuel fuel' : nat) (p : addr) (m : memory) (r : CSVReader) :
  readers m !! p = Some r ->
  streams m !! stream_ r = Some (Stream.open text) ->
  (occurrences Chars.newline text + 2 <= fuel)%nat ->
  (first <- range_for Fields arg_order fuel p ;;
   second <- range_for Fields arg_order (S fuel') p ;;
   Cpp.ret (first, second)) m
  = Returns
      (Some (map (row_of_line Fields arg_order r) (split Chars.newline text)), Some [])
      (with_stream m r
         (drained (empty (List.last (split Chars.newline text) EmptyString)))).
Proof.
  intros Hr Hs Hfuel. unfold Cpp.bind at 1.
  rewrite (range_for_split Fields arg_order text fuel p m r Hr Hs Hfuel).
  unfold Cpp.bind at 1.
  erewrite range_for_at_eof;
    [reflexivity | exact Hr | apply with_stream_lookup | reflexivity].
Qed.

Lemma second_pass_is_empty_witness :
  (first <- range_for [Int; Str] (left_to_right 2) 3 Sample.rd ;;
   second <- range_for [Int; Str] (left_to_right 2) 1 Sample.rd ;;
   Cpp.ret (first, second))
    (Sample.memory_of ("1,hello" +:+ Sample.nl +:+ "2,world"))
  = Returns
      (Some [(int_val 1, ("hello", tt)); (int_val 2, ("world", tt))], Some [])
      (Sample.memory_with (drained false)).
Proof.
  apply (second_pass_is_empty [Int; Str] (left_to_right 2)
           ("1,hello" +:+ Sample.nl +:+ "2,world") 3 0 Sample.rd
           (Sample.memory_of ("1,hello" +:+ Sample.nl +:+ "2,world"))
           Sample.the_reader).
  - reflexivity.
  - reflexivity.
  - simpl. lia.
Defined.

(** ** Which segment a field receives, for either order of evaluation *)

(** X3: when the arguments are evaluated in textual order, the rows of a
    text are the lines of the text, in order, each split at the separator
    and converted position by position to the declared types (a position
    the line has no segment for is converted from the empty string). *)
Theorem range_for_textual_order (Fields : list Parseable)
    (text : string) (fuel : nat) (p : addr) (m : memory) (r : CSVReader) :
  readers m !! p = Some r ->
  streams m !! stream_ r = Some (Stream.open text) ->
  (occurrences Chars.newline text + 2 <= fuel)%nat ->
  range_for Fields (left_to_right (length Fields)) fuel p m
    = Returns
        (Some (map (fun line => convert_all Fields (split (separator_ r) line))
                   (split Chars.newline text)))
        (with_stream m r
           (drained (empty (List.last (split Chars.newline text) EmptyString)))).
Proof.
  intros Hr Hs Hfuel.
  rewrite (range_for_split Fields _ text fuel p m r Hr Hs Hfuel).
  do 2 f_equal. apply map_ext. intros line.
  apply row_of_line_left_to_right.
Qed.

Lemma range_for_textual_order_witness :
  range_for [Int; Str] (left_to_right 2) 3 Sample.rd
    (Sample.memory_of ("1,hello" +:+ Sample.nl +:+ "2"))
  = Returns (Some [(int_val 1, ("hello", tt)); (int_val 2, ("", tt))])
            (Sample.memory_with (drained false)).
Proof.
  apply (range_for_textual_order [Int; Str] ("1,hello" +:+ Sample.nl +:+ "2") 3
           Sample.rd (Sample.memory_of ("1,hello" +:+ Sample.nl +:+ "2"))
           Sample.the_reader).
  - reflexivity.
  - reflexivity.
  - simpl. lia.
Defined.

(** From the last argument to the first, element i is the conversion of
    the substring that is i-th from the end. *)
Lemma row_of_segments_right_to_left (Fields : list Parseable)
    (segs : list string) (args : tuple Fields) :
  length segs = length Fields ->
  fold_left (fun args '(i, seg) => set_arg Fields i seg args)
    (zip (right_to_left (length Fields)) segs) args
  = convert_all Fields (rev segs).
Proof.
  revert segs args. induction Fields as [|T Ts IH]; intros segs args Hlen.
  - destruct args. reflexivity.
  - destruct args as [x xs].
    destruct segs as [|seg segs _] using rev_ind; [discriminate|].
    rewrite length_app in Hlen. simpl in Hlen.
    unfold right_to_left in *. cbn [length seq].
    rewrite <- seq_shift. cbn [rev]. rewrite <- map_rev.
    rewrite (zip_with_app pair (map S (rev (seq 0 (length Ts)))) [O] segs [seg])
      by (rewrite length_map, length_rev, length_seq; lia).
    rewrite fold_left_app, (set_arg_shift T Ts), IH by lia.
    rewrite rev_app_distr. reflexivity.
Qed.

(** X4: when the arguments are evaluated from the last to the first, the
    row of a line is the conversion, position by position, of the first N
    segments of the line taken in reverse: field i is parsed from segment
    N-1-i. *)
Theorem next_row_right_to_left (Fields : list Parseable)
    (p : addr) (m : memory) (r : CSVReader) (s s' : istream) (line : string) :
  readers m !! p = Some r ->
  streams m !! stream_ r = Some s ->
  eofbit s = false ->
  Stream.getline s EmptyString Chars.newline = (s', line) ->
  next_row Fields (right_to_left (length Fields)) p m
    = Returns
        (convert_all Fields
           (rev (take_padded (length Fields) (split (separator_ r) line))))
        (with_stream m r s').
Proof.
  intros Hr Hs He Hg.
  rewrite (next_row_line Fields _ p m r s s' _ Hr Hs He Hg).
  rewrite (parse_pack_line r Fields (right_to_left (length Fields)) line)
    by (unfold right_to_left; symmetry; apply Permutation_rev).
  unfold row_of_segments.
  rewrite (row_of_segments_right_to_left Fields _ _ (take_padded_length _ _)).
  reflexivity.
Qed.

Lemma next_row_right_to_left_witness :
  next_row [Int; Str; Str] (right_to_left 3) Sample.rd (Sample.memory_of "1,a,b")
    = Returns (int_val 0, ("a", ("1", tt)))
        (with_stream (Sample.memory_of "1,a,b") Sample.the_reader (drained false)).
Proof.
  apply (next_row_right_to_left [Int; Str; Str] Sample.rd (Sample.memory_of "1,a,b")
           Sample.the_reader (Stream.open "1,a,b") (drained false) "1,a,b");
    reflexivity.
Defined.

(** ** What a call reads and what it leaves alone *)

Lemma same_elsewhere_refl (a : addr) (m : memory) : same_elsewhere a m m.
Proof. split; auto. Qed.

Lemma same_elsewhere_with_stream (m : memory) (r : CSVReader) (s : istream) :
  same_elsewhere (stream_ r) m (with_stream m r s).
Proof.
  split; [reflexivity|]. intros a' Hne. unfold with_stream. simpl.
  apply lookup_insert_ne. congruence.
Qed.

(** X5: [next_row] moves the stream past exactly one line: the characters
    up to the next line terminator make the row, the terminator is consumed
    and what follows it is left unread; a last line without terminator
    ([tail] is [None]) leaves the stream at its end with [eofbit] set.  No
    reader and no other stream is touched. *)
Theorem next_row_consumes_one_line (Fields : list Parseable) (arg_order : list nat)
    (p : addr) (m : memory) (r : CSVReader) (line : string) (tail : option string) :
  readers m !! p = Some r ->
  occurs Chars.newline line = false ->
  streams m !! stream_ r
    = Some (Stream.open match tail with
                        | Some rest => line +:+ String Chars.newline rest
                        | None => line
                        end) ->
  next_row Fields arg_order p m
    = Returns (row_of_line Fields arg_order r line)
        (with_stream m r match tail with
                         | Some rest => Stream.open rest
                         | None => drained (empty line)
                         end) /\
  same_elsewhere (stream_ r) m
    (with_stream m r match tail with
                     | Some rest => Stream.open rest
                     | None => drained (empty line)
                     end).
Proof.
  intros Hr Hline Hs. split; [|apply same_elsewhere_with_stream].
  destruct tail as [rest|].
  - exact (next_row_line Fields arg_order p m r _ _ line Hr Hs eq_refl
             (getline_segment Chars.newline line rest _ Hline)).
  - exact (next_row_line Fields arg_order p m r _ _ line Hr Hs eq_refl
             (getline_last Chars.newline line _ Hline)).
Qed.

Lemma next_row_consumes_one_line_witness :
  next_row [Int; Str] (left_to_right 2) Sample.rd (Sample.memory_of Sample.two_lines)
    = Returns (row_of_line [Int; Str] (left_to_right 2) Sample.the_reader "1,hello")
        (with_stream (Sample.memory_of Sample.two_lines) Sample.the_reader
           (Stream.open ("2,world" +:+ Sample.nl))) /\
  same_elsewhere (stream_ Sample.the_reader) (Sample.memory_of Sample.two_lines)
    (with_stream (Sample.memory_of Sample.two_lines) Sample.the_reader
       (Stream.open ("2,world" +:+ Sample.nl))).
Proof.
  apply (next_row_consumes_one_line [Int; Str] (left_to_right 2) Sample.rd
           (Sample.memory_of Sample.two_lines) Sample.the_reader "1,hello"
           (Some ("2,world" +:+ Sample.nl)));
    reflexivity.
Defined.

Lemma operator_inc_dangling_stream (Fields : list Parseable) (arg_order : list nat)
    (it : iterator Fields) (m : memory) (p : addr) (r : CSVReader) :
  reader it = Some p ->
  readers m !! p = Some r ->
  streams m !! stream_ r = None ->
  operator_inc Fields arg_order (it, m) = Undefined.
Proof.
  intros Hp Hr Hs.
  unfold operator_inc, Cpp.bind, this_, Cpp.call, has_next_row, Cpp.bind,
    Memory.reader_at, Memory.stream_at.
  rewrite Hp, Hr, Hs. reflexivity.
Qed.

(** X6: whenever [operator++] returns, the value it returns is the
    iterator as it has become, the iterator is bound to the reader it was
    bound to or to none, and among the shared objects nothing but the
    stream of that reader can have changed. *)
Theorem advance_frame (Fields : list Parseable) (arg_order : list nat)
    (it x it' : iterator Fields) (m m' : memory) (p : addr) (r : CSVReader) :
  reader it = Some p ->
  readers m !! p = Some r ->
  operator_inc Fields arg_order (it, m) = Returns x (it', m') ->
  x = it' /\
  (reader it' = None \/ reader it' = Some p) /\
  same_elsewhere (stream_ r) m m'.
Proof.
  intros Hp Hr Hinc.
  destruct (streams m !! stream_ r) as [s|] eqn:Hs.
  - destruct (eofbit s) eqn:He.
    + assert (Hn : has_next_row p m = Returns false m)
        by (rewrite (has_next_row_live p m r s Hr Hs), He; reflexivity).
      rewrite (operator_inc_at_eof Fields arg_order it m p Hp Hn) in Hinc.
      injection Hinc as <- <- <-.
      split; [reflexivity|]. split; [left; reflexivity | apply same_elsewhere_refl].
    + destruct (Stream.getline s EmptyString Chars.newline) as [s' line] eqn:Hg.
      rewrite (operator_inc_line Fields arg_order it m p r s s' line Hp Hr Hs He Hg)
        in Hinc.
      injection Hinc as <- <- <-.
      split; [reflexivity|].
      split; [right; reflexivity | apply same_elsewhere_with_stream].
  - rewrite (operator_inc_dangling_stream Fields arg_order it m p r Hp Hr Hs) in Hinc.
    discriminate.
Qed.

Lemma advance_frame_witness :
  Sample.cursor (int_val 2, ("world", tt)) = Sample.cursor (int_val 2, ("world", tt)) /\
  (reader (Sample.cursor (int_val 2, ("world", tt))) = None \/
   reader (Sample.cursor (int_val 2, ("world", tt))) = Some Sample.rd) /\
  same_elsewhere (stream_ Sample.the_reader)
    (Sample.memory_of ("2,world" +:+ Sample.nl)) (Sample.memory_of "").
Proof.
  apply (advance_frame [Int; Str] (left_to_right 2)
           (Sample.cursor (int_val 1, ("hello", tt)))
           (Sample.cursor (int_val 2, ("world", tt)))
           (Sample.cursor (int_val 2, ("world", tt)))
           (Sample.memory_of ("2,world" +:+ Sample.nl)) (Sample.memory_of "")
           Sample.rd Sample.the_reader); reflexivity.
Defined.


(** ** A stream that has failed without reaching its end *)

Lemma getline_failed (s : istream) (str : string) (delim : ascii) :
  failbit s = true -> Stream.getline s str delim = (Stream.set_fail s, str).
Proof.
  intros Hf. unfold Stream.getline, Stream.good. rewrite Hf, andb_false_r.
  reflexivity.
Qed.

Lemma loop_failed (Fields : list Parseable) (arg_order : list nat)
    (p : addr) (m : memory) (r : CSVReader) (s : istream) :
  readers m !! p = Some r ->
  eofbit s = false ->
  forall fuel rows,
    loop Fields arg_order fuel rows
      ({| current_ := row_of_line Fields arg_order r EmptyString; reader := Some p |},
       with_stream m r (Stream.set_fail s))
    = Returns None
        ({| current_ := row_of_line Fields arg_order r EmptyString; reader := Some p |},
         with_stream m r (Stream.set_fail s)).
Proof.
  intros Hr He fuel. induction fuel as [|fuel IH]; intros rows; [reflexivity|].
  erewrite loop_active; [| reflexivity |].
  - apply IH.
  - erewrite operator_inc_line;
      [| reflexivity | exact Hr | apply with_stream_lookup | exact He
       | apply getline_failed; reflexivity].
    rewrite with_stream_twice. reflexivity.
Qed.

(** X8: over a stream whose [failbit] is set while [eofbit] is not (a
    file that could not be opened, a stream left failed by an earlier
    read), [has_next_row] stays true and no read ever reaches the end of
    the input: whatever the number of turns allowed, the loop from
    [begin()] to [end()] has not ended. *)
Theorem range_for_failed_stream_never_ends (Fields : list Parseable)
    (arg_order : list nat) (p : addr) (m : memory) (r : CSVReader) (s : istream)
    (fuel : nat) :
  readers m !! p = Some r ->
  streams m !! stream_ r = Some s ->
  eofbit s = false ->
  failbit s = true ->
  range_for Fields arg_order fuel p m
    = Returns None (with_stream m r (Stream.set_fail s)) /\
  has_next_row p (with_stream m r (Stream.set_fail s))
    = Returns true (with_stream m r (Stream.set_fail s)).
Proof.
  intros Hr Hs He Hf. split.
  - unfold range_for.
    rewrite (begin_line Fields arg_order p m r s _ EmptyString Hr Hs He
               (getline_failed s EmptyString Chars.newline Hf)).
    rewrite (loop_failed Fields arg_order p m r s Hr He). reflexivity.
  - erewrite has_next_row_live; [| exact Hr | apply with_stream_lookup].
    simpl. rewrite He. reflexivity.
Qed.

Lemma range_for_failed_stream_never_ends_witness :
  range_for [Int; Str] (left_to_right 2) 1000 Sample.rd
    (Sample.memory_with (mk_istream "1,hello" false true))
  = Returns None
      (with_stream (Sample.memory_with (mk_istream "1,hello" false true))
         Sample.the_reader (Stream.set_fail (mk_istream "1,hello" false true))) /\
  has_next_row Sample.rd
    (with_stream (Sample.memory_with (mk_istream "1,hello" false true))
       Sample.the_reader (Stream.set_fail (mk_istream "1,hello" false true)))
  = Returns true
      (with_stream (Sample.memory_with (mk_istream "1,hello" false true))
         Sample.the_reader (Stream.set_fail (mk_istream "1,hello" false true))).
Proof.
  apply (range_for_failed_stream_never_ends [Int; Str] (left_to_right 2) Sample.rd
           (Sample.memory_with (mk_istream "1,hello" false true)) Sample.the_reader
           (mk_istream "1,hello" false true) 1000); reflexivity.
Defined.

(** ** Sharing *)

(** X9: two readers constructed over the same stream share its read
    position: a line read through one of them is gone for the other, which
    reads the line after it. *)
Theorem readers_share_the_stream (Fields1 Fields2 : list Parseable)
    (order1 order2 : list nat) (p1 p2 : addr) (m : memory) (r1 r2 : CSVReader)
    (line1 line2 rest : string) :
  readers m !! p1 = Some r1 ->
  readers m !! p2 = Some r2 ->
  stream_ r2 = stream_ r1 ->
  streams m !! stream_ r1
    = Some (Stream.open (line1 +:+ String Chars.newline
                           (line2 +:+ String Chars.newline rest))) ->
  occurs Chars.newline line1 = false ->
  occurs Chars.newline line2 = false ->
  (row1 <- next_row Fields1 order1 p1 ;;
   row2 <- next_row Fields2 order2 p2 ;;
   Cpp.ret (row1, row2)) m
  = Returns (row_of_line Fields1 order1 r1 line1, row_of_line Fields2 order2 r2 line2)
            (with_stream m r1 (Stream.open rest)).
Proof.
  intros Hr1 Hr2 Heq Hs Hl1 Hl2. unfold Cpp.bind at 1.
  rewrite (next_row_line Fields1 order1 p1 m r1 _ _ line1 Hr1 Hs eq_refl
             (getline_segment Chars.newline line1 _ _ Hl1)).
  unfold Cpp.bind at 1.
  erewrite (next_row_line Fields2 order2 p2 _ r2);
    [| exact Hr2 | rewrite Heq; apply with_stream_lookup | reflexivity
     | exact (getline_segment Chars.newline line2 rest _ Hl2)].
  unfold Cpp.ret, with_stream. simpl. rewrite Heq, insert_insert_eq. reflexivity.
Qed.

Lemma readers_share_the_stream_witness :
  (row1 <- next_row [Int; Str] (left_to_right 2) 1%positive ;;
   row2 <- next_row [Str] (left_to_right 1) 3%positive ;;
   Cpp.ret (row1, row2))
    {| readers := <[3%positive := CSVReader_new 2%positive (Some ";"%char)]>
                    (readers (Sample.memory_of Sample.two_lines));
       streams := streams (Sample.memory_of Sample.two_lines) |}
  = Returns ((int_val 1, ("hello", tt)), ("2,world", tt))
      (with_stream
         {| readers := <[3%positive := CSVReader_new 2%positive (Some ";"%char)]>
                         (readers (Sample.memory_of Sample.two_lines));
            streams := streams (Sample.memory_of Sample.two_lines) |}
         Sample.the_reader (Stream.open "")).
Proof.
  apply (readers_share_the_stream [Int; Str] [Str] (left_to_right 2) (left_to_right 1)
           1%positive 3%positive _ Sample.the_reader
           (CSVReader_new 2%positive (Some ";"%char)) "1,hello" "2,world" "");
    reflexivity.
Defined.

(** X10: two iterators obtained from the same reader compare equal
    although they cache different rows: each [begin()] reads a line of its
    own, the second one the line after the first. *)
Theorem iterators_share_the_reader (Fields : list Parseable) (arg_order : list nat)
    (p : addr) (m : memory) (r : CSVReader) (line1 line2 rest : string) :
  readers m !! p = Some r ->
  streams m !! stream_ r
    = Some (Stream.open (line1 +:+ String Chars.newline
                           (line2 +:+ String Chars.newline rest))) ->
  occurs Chars.newline line1 = false ->
  occurs Chars.newline line2 = false ->
  exists it1 it2,
    (it1 <- begin_ Fields arg_order p ;;
     it2 <- begin_ Fields arg_order p ;;
     Cpp.ret (it1, it2)) m
    = Returns (it1, it2) (with_stream m r (Stream.open rest)) /\
    operator_ne it1 it2 = false /\
    current_ it1 = row_of_line Fields arg_order r line1 /\
    current_ it2 = row_of_line Fields arg_order r line2.
Proof.
  intros Hr Hs Hl1 Hl2.
  exists {| current_ := row_of_line Fields arg_order r line1; reader := Some p |}.
  exists {| current_ := row_of_line Fields arg_order r line2; reader := Some p |}.
  split; [|split; [|split]]; try reflexivity.
  - unfold Cpp.bind at 1.
    rewrite (begin_line Fields arg_order p m r _ _ line1 Hr Hs eq_refl
               (getline_segment Chars.newline line1 _ _ Hl1)).
    unfold Cpp.bind at 1.
    erewrite (begin_line Fields arg_order p _ r);
      [| exact Hr | apply with_stream_lookup | reflexivity
       | exact (getline_segment Chars.newline line2 rest _ Hl2)].
    rewrite with_stream_twice. reflexivity.
  - unfold operator_ne. simpl. rewrite bool_decide_eq_true_2; reflexivity.
Qed.

Lemma iterators_share_the_reader_witness :
  exists it1 it2,
    (it1 <- begin_ [Int; Str] (left_to_right 2) Sample.rd ;;
     it2 <- begin_ [Int; Str] (left_to_right 2) Sample.rd ;;
     Cpp.ret (it1, it2)) (Sample.memory_of Sample.two_lines)
    = Returns (it1, it2)
        (with_stream (Sample.memory_of Sample.two_lines) Sample.the_reader
           (Stream.open "")) /\
    operator_ne it1 it2 = false /\
    current_ it1 = (int_val 1, ("hello", tt)) /\
    current_ it2 = (int_val 2, ("world", tt)).
Proof.
  apply (iterators_share_the_reader [Int; Str] (left_to_right 2) Sample.rd
           (Sample.memory_of Sample.two_lines) Sample.the_reader
           "1,hello" "2,world" ""); reflexivity.
Defined.

(** ** What a field makes of its segment *)

Lemma skipws_no_space (s : string) : has_space s = false -> Chars.skipws s = s.
Proof.
  destruct s as [|c s]; [reflexivity|]. simpl.
  intros H. apply orb_false_iff in H as [-> _]. reflexivity.
Qed.

Lemma word_no_space (s : string) :
  has_space s = false -> Extract.word s = (s, EmptyString).
Proof.
  induction s as [|c s IH]; [reflexivity|]. simpl.
  intros H. apply orb_false_iff in H as [-> Hs]. rewrite (IH Hs). reflexivity.
Qed.

Lemma word_has_no_space (s : string) : has_space (fst (Extract.word s)) = false.
Proof.
  induction s as [|c s IH]; [reflexivity|]. simpl.
  destruct (Chars.isspace c) eqn:Hc; [reflexivity|].
  destruct (Extract.word s) as [w rest]. simpl in *. rewrite Hc, IH. reflexivity.
Qed.

Lemma convert_Str_has_no_space (seg : string) : has_space (convert Str seg) = false.
Proof.
  unfold convert. change (extract Str) with Extract.extract_string.
  unfold Extract.extract_string, Stream.sentry.
  change (Stream.good (Stream.open seg)) with true.
  change (rdbuf (Stream.open seg)) with seg. cbv iota.
  destruct (Chars.skipws seg) as [|c rest] eqn:Hskip; [reflexivity|]. cbn [rdbuf].
  pose proof (word_has_no_space (String c rest)) as Hw.
  destruct (Extract.word (String c rest)) as [w rest']. exact Hw.
Qed.

Lemma convert_Str_no_space (seg : string) :
  has_space seg = false -> convert Str seg = seg.
Proof.
  intros Hseg. unfold convert. change (extract Str) with Extract.extract_string.
  unfold Extract.extract_string, Stream.sentry.
  change (Stream.good (Stream.open seg)) with true.
  change (rdbuf (Stream.open seg)) with seg. cbv iota.
  rewrite (skipws_no_space seg Hseg).
  destruct seg as [|c seg]; [reflexivity|]. cbn [rdbuf].
  rewrite (word_no_space (String c seg) Hseg). reflexivity.
Qed.

(** X11: a [std::string] field never holds white space, whatever the
    line: the segment is cut at its first white space after the leading
    ones.  A segment without white space is returned as it is, and the
    stream of the line is left after the separator that closes it. *)
Theorem text_field (this : CSVReader) (ss : istream) (seg rest : string) :
  occurs (separator_ this) seg = false ->
  has_space seg = false ->
  parse Str this (Stream.open (seg +:+ String (separator_ this) rest))
    = (seg, Stream.open rest) /\
  parse Str this (Stream.open seg) = (seg, drained (empty seg)) /\
  has_space (fst (parse Str this ss)) = false.
Proof.
  intros Hsep Hsp. rewrite !parse_getline. split; [|split].
  - rewrite (getline_segment (separator_ this) seg rest _ Hsep). simpl.
    rewrite (convert_Str_no_space seg Hsp). reflexivity.
  - rewrite (getline_last (separator_ this) seg _ Hsep). simpl.
    rewrite (convert_Str_no_space seg Hsp). reflexivity.
  - simpl. apply convert_Str_has_no_space.
Qed.

Lemma text_field_witness :
  parse Str Sample.the_reader (Stream.open ("hello" +:+ String "," "7"))
    = ("hello", Stream.open "7") /\
  parse Str Sample.the_reader (Stream.open "hello") = ("hello", drained (empty "hello")) /\
  has_space (fst (parse Str Sample.the_reader (Stream.open " a b ,c"))) = false.
Proof.
  apply (text_field Sample.the_reader (Stream.open " a b ,c") "hello" "7");
    reflexivity.
Defined.

(** X12: a field whose segment is blank (empty or white space only), and
    a field for which the line has no segment left, is never assigned: the
    element is what [T t;] made of it, an indeterminate value for an [int]
    and the empty string for a [std::string]. *)
Theorem blank_field (this : CSVReader) (ss : istream) :
  Chars.skipws (snd (Stream.getline ss EmptyString (separator_ this))) = EmptyString ->
  fst (parse Int this ss) = indeterminate /\
  fst (parse Str this ss) = EmptyString.
Proof.
  intros Hblank. rewrite !parse_getline. simpl. unfold convert. simpl.
  unfold Extract.extract_int, Extract.extract_string, Stream.sentry. simpl.
  rewrite Hblank. split; reflexivity.
Qed.

Lemma blank_field_witness :
  fst (parse Int Sample.the_reader (drained false)) = indeterminate /\
  fst (parse Str Sample.the_reader (drained false)) = EmptyString.
Proof.
  apply (blank_field Sample.the_reader (drained false)). reflexivity.
Defined.

Example blank_int_field_in_a_row :
  next_row [Int; Int; Int] (left_to_right 3) Sample.rd (Sample.memory_of "5,  ")
    = Returns (int_val 5, (indeterminate, (indeterminate, tt)))
              (Sample.memory_with (drained false)).
Proof. reflexivity. Qed.

(** ** Decimal numerals *)

Lemma digit_pretty_N_char (x : N) :
  (x < 10)%N -> Chars.digit (pretty_N_char x) = Some (Z.of_N x).
Proof.
  intros Hx.
  assert (x = 0 \/ x = 1 \/ x = 2 \/ x = 3 \/ x = 4 \/ x = 5 \/ x = 6 \/ x = 7
          \/ x = 8 \/ x = 9)%N as H by lia.
  repeat (destruct H as [->|H]; [reflexivity|]). subst x. reflexivity.
Qed.

Lemma digit_bounds (c : ascii) (d : Z) :
  Chars.digit c = Some d -> (48 <= nat_of_ascii c <= 57)%nat.
Proof.
  unfold Chars.digit.
  destruct (Nat.leb_spec 48 (nat_of_ascii c)); [|discriminate].
  destruct (Nat.leb_spec (nat_of_ascii c) 57); [|discriminate]. lia.
Qed.

Lemma digit_not_space (c : ascii) (d : Z) :
  Chars.digit c = Some d -> Chars.isspace c = false.
Proof.
  intros H. apply digit_bounds in H. unfold Chars.isspace.
  destruct (Nat.eqb_spec (nat_of_ascii c) 32); [lia|].
  destruct (Nat.leb_spec 9 (nat_of_ascii c)); [|reflexivity].
  destruct (Nat.leb_spec (nat_of_ascii c) 13); [lia | reflexivity].
Qed.

Lemma digit_not_sign (c : ascii) (d : Z) :
  Chars.digit c = Some d -> Extract.is_sign c = false.
Proof.
  intros H. apply digit_bounds in H. unfold Extract.is_sign.
  destruct (Ascii.eqb_spec c "+"%char) as [->|_];
    [change (nat_of_ascii "+"%char) with 43%nat in H; lia|].
  destruct (Ascii.eqb_spec c "-"%char) as [->|_];
    [change (nat_of_ascii "-"%char) with 45%nat in H; lia|].
  reflexivity.
Qed.

(** The digits of a numeral are read back to the number it denotes. *)
Lemma digits_pretty_N_go (x : N) (s : string) (seen : bool) :
  (0 < x)%N ->
  Extract.digits (pretty_N_go x s) 0 seen = Extract.digits s (Z.of_N x) true.
Proof.
  revert s seen. induction (N.lt_wf_0 x) as [x _ IH]. intros s seen Hx.
  rewrite pretty_N_go_step by exact Hx.
  pose proof (N.div_mod x 10 ltac:(lia)) as Hdm.
  destruct (decide (x `div` 10 = 0)%N) as [Hq|Hq].
  - rewrite Hq, pretty_N_go_0. simpl.
    rewrite digit_pretty_N_char by (apply N.mod_lt; lia).
    f_equal. lia.
  - assert (Hlt : (x `div` 10 < x)%N) by (apply N.div_lt; lia).
    assert (Hpos : (0 < x `div` 10)%N) by (apply N.neq_0_lt_0; exact Hq).
    rewrite (IH _ Hlt _ _ Hpos). simpl.
    rewrite digit_pretty_N_char by (apply N.mod_lt; lia).
    f_equal. lia.
Qed.

(** A numeral starts with a digit. *)
Lemma pretty_N_go_head (x : N) (s : string) :
  (0 < x)%N ->
  exists c rest d, pretty_N_go x s = String c rest /\ Chars.digit c = Some d.
Proof.
  revert s. induction (N.lt_wf_0 x) as [x _ IH]. intros s Hx.
  rewrite pretty_N_go_step by exact Hx.
  destruct (decide (x `div` 10 = 0)%N) as [Hq|Hq].
  - rewrite Hq, pretty_N_go_0. eexists. eexists. eexists. split; [reflexivity|].
    apply digit_pretty_N_char, N.mod_lt. lia.
  - apply IH; [apply N.div_lt; lia | apply N.neq_0_lt_0; exact Hq].
Qed.

(** A character that is neither a digit nor the minus sign occurs in no
    numeral. *)
Lemma occurs_pretty_N_go (c : ascii) (x : N) (s : string) :
  Chars.digit c = None ->
  occurs c (pretty_N_go x s) = occurs c s.
Proof.
  intros Hc. revert s. induction (N.lt_wf_0 x) as [x _ IH]. intros s.
  destruct (decide (x = 0)%N) as [->|Hx]; [rewrite pretty_N_go_0; reflexivity|].
  rewrite pretty_N_go_step by lia. rewrite IH by (apply N.div_lt; lia).
  cbn [occurs].
  destruct (Ascii.eqb_spec (pretty_N_char (x `mod` 10)) c) as [Heq|_]; [|reflexivity].
  rewrite <- Heq, digit_pretty_N_char in Hc by (apply N.mod_lt; lia). discriminate.
Qed.

Lemma occurs_pretty_N (c : ascii) (x : N) :
  Chars.digit c = None -> occurs c (pretty x) = false.
Proof.
  intros Hc. unfold pretty, pretty_N. destruct (decide (x = 0)%N).
  - cbn [occurs].
    destruct (Ascii.eqb_spec "0"%char c) as [<-|_]; [cbv in Hc; discriminate | reflexivity].
  - apply (occurs_pretty_N_go c x EmptyString Hc).
Qed.

Lemma occurs_pretty_Z (c : ascii) (z : Z) :
  Chars.digit c = None -> c <> "-"%char -> occurs c (pretty z) = false.
Proof.
  intros Hc Hm. destruct z as [|x|x].
  - change (pretty 0) with "0". cbn [occurs].
    destruct (Ascii.eqb_spec "0"%char c) as [<-|_]; [cbv in Hc; discriminate | reflexivity].
  - apply (occurs_pretty_N c (Npos x) Hc).
  - change (pretty (Zneg x)) with (String "-"%char (pretty (Npos x))). cbn [occurs].
    rewrite (occurs_pretty_N c (Npos x) Hc).
    destruct (Ascii.eqb_spec "-"%char c) as [Heq|_]; [congruence | reflexivity].
Qed.

(** Extraction of an [int] from a text that starts with a character that
    is no white space: the sentry lets it through to [num_get]. *)
Lemma convert_Int_no_leading_space (c : ascii) (s : string) :
  Chars.isspace c = false ->
  convert Int (String c s) = snd (Extract.num_get_int (Stream.open (String c s))).
Proof.
  intros Hc. unfold convert. change (extract Int) with Extract.extract_int.
  unfold Extract.extract_int, Stream.sentry.
  change (Stream.good (Stream.open (String c s))) with true.
  change (rdbuf (Stream.open (String c s))) with (String c s). cbv iota.
  cbn [Chars.skipws]. rewrite Hc. reflexivity.
Qed.

Lemma convert_Int_pretty_N (x : N) :
  (0 < x)%N -> convert Int (pretty x) = int_val (saturate (Z.of_N x)).
Proof.
  intros Hx. unfold pretty, pretty_N.
  destruct (decide (x = 0)%N) as [|_]; [lia|].
  destruct (pretty_N_go_head x EmptyString Hx) as (c & rest & d & Heq & Hd).
  rewrite Heq, (convert_Int_no_leading_space c rest (digit_not_space c d Hd)).
  unfold Extract.num_get_int. cbn [rdbuf Stream.open].
  rewrite (digit_not_sign c d Hd), <- Heq.
  rewrite (digits_pretty_N_go x EmptyString false Hx). cbn [Extract.digits negb].
  unfold saturate, Extract.INT_MAX, Extract.INT_MIN.
  destruct (Z.ltb_spec 2147483647 (Z.of_N x)); cbn [snd].
  - f_equal. lia.
  - destruct (Z.ltb_spec (Z.of_N x) (-2147483648)); cbn [snd]; f_equal; lia.
Qed.

Lemma convert_Int_pretty (z : Z) : convert Int (pretty z) = int_val (saturate z).
Proof.
  destruct z as [|x|x].
  - reflexivity.
  - exact (convert_Int_pretty_N (Npos x) ltac:(lia)).
  - change (pretty (Zneg x)) with (String "-"%char (pretty (Npos x))).
    rewrite (convert_Int_no_leading_space "-"%char _ eq_refl).
    unfold Extract.num_get_int. cbn [rdbuf Stream.open].
    change (Extract.is_sign "-"%char) with true. cbv iota.
    change (Ascii.eqb "-"%char "-"%char) with true.
    unfold pretty, pretty_N. destruct (decide (Npos x = 0)%N) as [|_]; [lia|].
    rewrite (digits_pretty_N_go (Npos x) EmptyString false ltac:(lia)).
    cbn [Extract.digits negb].
    unfold saturate, Extract.INT_MAX, Extract.INT_MIN.
    destruct (Z.ltb_spec 2147483647 (- Z.of_N (Npos x))); cbn [snd].
    + f_equal. lia.
    + destruct (Z.ltb_spec (- Z.of_N (Npos x)) (-2147483648)); cbn [snd]; f_equal; lia.
Qed.

(** X13: an [int] field whose segment is the decimal numeral of [z]
    receives the value of [int] nearest to [z]: [z] itself when it is in
    range, [INT_MAX] or [INT_MIN] when it is not. *)
Theorem int_field_numeral (this : CSVReader) (z : Z) (rest : string) :
  Chars.digit (separator_ this) = None ->
  separator_ this <> "-"%char ->
  parse Int this (Stream.open (pretty z +:+ String (separator_ this) rest))
    = (int_val (saturate z), Stream.open rest) /\
  parse Int this (Stream.open (pretty z))
    = (int_val (saturate z), drained (empty (pretty z))) /\
  (Extract.INT_MIN <= z <= Extract.INT_MAX -> saturate z = z) /\
  Extract.INT_MIN <= saturate z <= Extract.INT_MAX.
Proof.
  intros Hd Hm.
  pose proof (occurs_pretty_Z (separator_ this) z Hd Hm) as Hsep.
  rewrite !parse_getline. split; [|split; [|split]].
  - rewrite (getline_segment (separator_ this) (pretty z) rest _ Hsep).
    cbn [fst snd]. rewrite convert_Int_pretty. reflexivity.
  - rewrite (getline_last (separator_ this) (pretty z) _ Hsep).
    cbn [fst snd]. rewrite convert_Int_pretty. reflexivity.
  - unfold saturate, Extract.INT_MIN, Extract.INT_MAX. lia.
  - unfold saturate, Extract.INT_MIN, Extract.INT_MAX. lia.
Qed.

Lemma int_field_numeral_witness :
  parse Int Sample.the_reader (Stream.open (pretty (-2147483649) +:+ String "," "x"))
    = (int_val (saturate (-2147483649)), Stream.open "x") /\
  parse Int Sample.the_reader (Stream.open (pretty (-2147483649)))
    = (int_val (saturate (-2147483649)), drained (empty (pretty (-2147483649)))) /\
  (Extract.INT_MIN <= -2147483649 <= Extract.INT_MAX ->
   saturate (-2147483649) = -2147483649) /\
  Extract.INT_MIN <= saturate (-2147483649) <= Extract.INT_MAX.
Proof.
  apply (int_field_numeral Sample.the_reader (-2147483649) "x").
  - reflexivity.
  - discriminate.
Defined.

Example int_field_values :
  convert Int (pretty 2147483647) = int_val 2147483647 /\
  convert Int (pretty 2147483648) = int_val 2147483647 /\
  convert Int " -42abc" = int_val (-42) /\
  convert Int "abc" = int_val 0.
Proof. repeat split; reflexivity. Qed.

(** ** Writing a table of numbers and reading it back *)

Lemma occurs_app (c : ascii) (a b : string) :
  occurs c (a +:+ b) = (occurs c a || occurs c b)%bool.
Proof.
  induction a as [|x a IH]; [reflexivity|].
  change (String x a +:+ b) with (String x (a +:+ b)). cbn [occurs].
  rewrite IH, orb_assoc. reflexivity.
Qed.

Lemma occurs_join (c sep : ascii) (segs : list string) :
  c <> sep ->
  Forall (fun seg => occurs c seg = false) segs ->
  occurs c (join sep segs) = false.
Proof.
  intros Hne Hall. induction Hall as [|seg segs Hseg Hsegs IH]; [reflexivity|].
  destruct segs as [|seg2 segs]; [exact Hseg|].
  change (join sep (seg :: seg2 :: segs))
    with (seg +:+ String sep (join sep (seg2 :: segs))).
  rewrite occurs_app, Hseg. cbn [occurs orb]. rewrite IH.
  destruct (Ascii.eqb_spec sep c); [congruence | reflexivity].
Qed.

Lemma split_join (sep : ascii) (segs : list string) :
  segs <> [] ->
  Forall (fun seg => occurs sep seg = false) segs ->
  split sep (join sep segs) = segs.
Proof.
  intros Hne Hall. induction Hall as [|seg segs Hseg Hsegs IH]; [congruence|].
  destruct segs as [|seg2 segs].
  - pose proof (until_split sep seg) as Hu. rewrite (until_end sep seg Hseg) in Hu.
    exact (proj1 Hu).
  - change (join sep (seg :: seg2 :: segs))
      with (seg +:+ String sep (join sep (seg2 :: segs))).
    pose proof (until_split sep (seg +:+ String sep (join sep (seg2 :: segs)))) as Hu.
    rewrite (until_found sep seg _ Hseg) in Hu. rewrite (proj1 Hu), IH by discriminate.
    reflexivity.
Qed.

Lemma convert_all_ints (n : nat) (zs : list Z) :
  length zs = n ->
  convert_all (Ints n) (map pretty zs) = int_row n (map saturate zs).
Proof.
  revert zs. induction n as [|n IH]; intros zs Hlen; [reflexivity|].
  destruct zs as [|z zs]; [discriminate|].
  change (Ints (S n)) with (Int :: Ints n). cbn [convert_all int_row map hd tl].
  rewrite convert_Int_pretty, IH by (simpl in Hlen; lia). reflexivity.
Qed.

Lemma row_of_printed_row (n : nat) (r : CSVReader) (zs : list Z) :
  Chars.digit (separator_ r) = None ->
  separator_ r <> "-"%char ->
  length zs = n ->
  row_of_line (Ints n) (left_to_right n) r (print_row (separator_ r) zs)
    = int_row n (map saturate zs).
Proof.
  intros Hd Hm Hlen.
  replace (left_to_right n) with (left_to_right (length (Ints n)))
    by (unfold Ints; rewrite length_replicate; reflexivity).
  rewrite row_of_line_left_to_right.
  destruct zs as [|z zs].
  - subst n. reflexivity.
  - unfold print_row. rewrite split_join.
    + apply convert_all_ints, Hlen.
    + discriminate.
    + apply Forall_map, Forall_forall. intros z' _. cbn.
      apply occurs_pretty_Z; assumption.
Qed.

Lemma printed_row_has_no_newline (sep : ascii) (zs : list Z) :
  sep <> Chars.newline ->
  occurs Chars.newline (print_row sep zs) = false.
Proof.
  intros Hne. unfold print_row. apply occurs_join; [congruence|].
  apply Forall_map, Forall_forall. intros z _. cbn.
  apply occurs_pretty_Z; [reflexivity | discriminate].
Qed.

(** X14: a table of numbers written in decimal, the numbers of a row
    separated by the separator and the rows by line terminators, is read
    back by a reader of [n] [int] fields (arguments evaluated in textual
    order) as the table itself, row by row, each number brought into the
    range of [int].  This holds for a table that has at least one row and
    whose rows all have [n] numbers, and for a separator that is neither a
    digit, nor the minus sign, nor the line terminator. *)
Theorem int_table_round_trip (n : nat) (rows : list (list Z)) (fuel : nat)
    (p : addr) (m : memory) (r : CSVReader) :
  readers m !! p = Some r ->
  Chars.digit (separator_ r) = None ->
  separator_ r <> "-"%char ->
  separator_ r <> Chars.newline ->
  rows <> [] ->
  Forall (fun zs => length zs = n) rows ->
  streams m !! stream_ r = Some (Stream.open (print_rows (separator_ r) rows)) ->
  (length rows + 1 <= fuel)%nat ->
  exists m',
    range_for (Ints n) (left_to_right n) fuel p m
    = Returns (Some (map (fun zs => int_row n (map saturate zs)) rows)) m'.
Proof.
  intros Hr Hd Hm Hnl Hne Hall Hs Hfuel. eexists.
  rewrite (range_for_separated_lines (Ints n) (left_to_right n)
             (map (print_row (separator_ r)) rows) fuel p m r).
  - rewrite map_map. do 2 f_equal. apply map_ext_in. intros zs Hin.
    apply row_of_printed_row; [assumption..|].
    rewrite Forall_forall in Hall. apply Hall, list_elem_of_In, Hin.
  - destruct rows; [congruence | discriminate].
  - apply Forall_map, Forall_forall. intros zs _. cbn.
    apply printed_row_has_no_newline, Hnl.
  - exact Hr.
  - exact Hs.
  - rewrite length_map. exact Hfuel.
Qed.

Lemma int_table_round_trip_witness :
  exists m',
    range_for (Ints 3) (left_to_right 3) 3 Sample.rd
      (Sample.memory_of (print_rows "," [[1; -20; 300]; [0; 2147483647; -7]]))
    = Returns
        (Some (map (fun zs => int_row 3 (map saturate zs))
                   [[1; -20; 300]; [0; 2147483647; -7]])) m'.
Proof.
  apply (int_table_round_trip 3 [[1; -20; 300]; [0; 2147483647; -7]] 3 Sample.rd
           (Sample.memory_of (print_rows "," [[1; -20; 300]; [0; 2147483647; -7]]))
           Sample.the_reader).
  - reflexivity.
  - reflexivity.
  - discriminate.
  - discriminate.
  - discriminate.
  - repeat constructor.
  - reflexivity.
  - simpl. lia.
Defined.


(** * Exceptions of the stream and of the extractors *)

Section Throwing_facts.

Variable exceptions : addr -> iostate.
Variable this : CSVReader.

Lemma throwing_parse_returns (T : Extractor) (ss : istream) :
  never_throws T ->
  Throwing.parse T this ss = inl (parse (type_of T) this ss).
Proof.
  intros HT. unfold Throwing.parse, parse.
  destruct (Stream.getline ss EmptyString (separator_ this)) as [ss' tmp].
  rewrite HT. destruct (extract (type_of T) (Stream.open tmp) _). reflexivity.
Qed.


Lemma throwing_parse_arg_returns (Fields : list Extractor) (i : nat)
    (args : tuple (map type_of Fields)) (ss : istream) :
  Forall never_throws Fields ->
  Throwing.parse_arg Fields this i args ss
    = inl (parse_arg (map type_of Fields) this i args ss).
Proof.
  intros Hall. revert i args.
  induction Hall as [|T Ts HT HTs IH]; intros i args; [reflexivity|].
  destruct args as [x xs]. destruct i as [|j]; cbn [Throwing.parse_arg map parse_arg].
  - rewrite (throwing_parse_returns T ss HT).
    destruct (parse (type_of T) this ss). reflexivity.
  - rewrite IH. destruct (parse_arg (map type_of Ts) this j xs ss). reflexivity.
Qed.


Lemma throwing_parse_pack_returns (Fields : list Extractor) (order : list nat)
    (ss : istream) :
  Forall never_throws Fields ->
  Throwing.parse_pack Fields order this ss
    = inl (parse_pack (map type_of Fields) order this ss).
Proof.
  intros Hall. unfold Throwing.parse_pack, parse_pack.
  generalize (pending (map type_of Fields), ss) as acc.
  induction order as [|i order IH]; intros acc; [reflexivity|].
  destruct acc as [args ss0]. cbn [fold_left].
  rewrite (throwing_parse_arg_returns Fields i args ss0 Hall). apply IH.
Qed.


End Throwing_facts.

Section Throwing_next_row.

Variable exceptions : addr -> iostate.
Variable Fields : list Extractor.
Variable arg_order : list nat.

Lemma throwing_next_row_at_eof p m r s :
  readers m !! p = Some r ->
  streams m !! stream_ r = Some s ->
  eofbit s = true ->
  Throwing.next_row exceptions Fields arg_order p m = Throws (out_of_range "EOF") m.
Proof.
  intros Hr Hs He. unfold Throwing.next_row, Cpp.bind.
  rewrite (has_next_row_live p m r s Hr Hs), He. reflexivity.
Qed.

Lemma throwing_next_row_line p m r s s' line :
  readers m !! p = Some r ->
  streams m !! stream_ r = Some s ->
  eofbit s = false ->
  Stream.getline s EmptyString Chars.newline = (s', line) ->
  Throwing.next_row exceptions Fields arg_order p m =
    if fires (exceptions (stream_ r)) s' then Throws ios_failure (with_stream m r s')
    else match Throwing.parse_pack Fields arg_order r (Stream.open line) with
         | inl (row, _) => Returns row (with_stream m r s')
         | inr e => Throws e (with_stream m r s')
         end.
Proof.
  intros Hr Hs He Hg. unfold Throwing.next_row, Cpp.bind.
  rewrite (has_next_row_live p m r s Hr Hs), He. simpl.
  unfold Memory.reader_at, Memory.stream_at. rewrite Hr, Hs, Hg. simpl.
  destruct (fires (exceptions (stream_ r)) s'); [reflexivity|].
  destruct (Throwing.parse_pack Fields arg_order r (Stream.open line)) as [[row ss]|e];
    reflexivity.
Qed.

(** On a stream without exception mask and with extractors that return,
    [next_row] is the one of the first part. *)
Lemma throwing_next_row_plain p m :
  (forall a, exceptions a = goodbit) ->
  Forall never_throws Fields ->
  Throwing.next_row exceptions Fields arg_order p m
    = next_row (map type_of Fields) arg_order p m.
Proof.
  intros Hmask Hall.
  destruct (readers m !! p) as [r|] eqn:Hr.
  - destruct (streams m !! stream_ r) as [s|] eqn:Hs.
    + destruct (eofbit s) eqn:He.
      * rewrite (throwing_next_row_at_eof p m r s Hr Hs He).
        rewrite (next_row_at_eof _ arg_order p m r s Hr Hs He). reflexivity.
      * destruct (Stream.getline s EmptyString Chars.newline) as [s' line] eqn:Hg.
        rewrite (throwing_next_row_line p m r s s' line Hr Hs He Hg).
        rewrite (next_row_line _ arg_order p m r s s' line Hr Hs He Hg).
        rewrite Hmask. unfold fires. simpl.
        rewrite (throwing_parse_pack_returns r Fields arg_order _ Hall).
        destruct (parse_pack (map type_of Fields) arg_order r (Stream.open line)).
        reflexivity.
    + unfold Throwing.next_row, next_row, has_next_row, Cpp.bind,
        Memory.reader_at, Memory.stream_at.
      rewrite Hr, Hs. reflexivity.
  - unfold Throwing.next_row, next_row, has_next_row, Cpp.bind, Memory.reader_at.
    rewrite Hr. reflexivity.
Qed.



End Throwing_next_row.

(** ** When [next_row] throws *)




(** An extractor that throws is let through as well, the line consumed. *)
Example next_row_lets_the_extractor_throw :
  Throwing.next_row (fun _ => goodbit) [returning Int; Strict_int] (left_to_right 2)
    Sample.rd (Sample.memory_of ("5, " +:+ Sample.nl +:+ "6,7"))
  = Throws (other "blank") (Sample.memory_of "6,7").
Proof. reflexivity. Qed.

(** ** One step of an active iterator *)



Example advance_lets_the_stream_throw :
  Throwing.operator_inc throw_on_failbit [returning Int; returning Str]
    (left_to_right 2)
    (Sample.cursor (int_val 1, ("hello", tt)), Sample.memory_of "")
  = Throws ios_failure
      (Sample.cursor (int_val 1, ("hello", tt)), Sample.memory_with (drained true)).
Proof. reflexivity. Qed.
